(** * The voting contract of [assetTransfer.ts] over a key-value World State

    A shallow embedding of the chaincode class [AssetTransferContract]
    (src/src/assetTransfer.ts) and of the parts of its platform that decide
    what it computes: ECMAScript strings, [JSON.parse] and [JSON.stringify],
    property lookup on ordinary objects, the two serialisation packages the
    contract imports, and the ledger stub ([getState], [putState],
    [deleteState], [getStateByRange]).

    Conventions.
    - A JavaScript string is a [string] holding its UTF-8 bytes; a surrogate
      that is no half of a pair, which only an escape in JSON text can bring
      in, is held in the three bytes of its code unit.  The contract only
      ever sees a stored value through [toString()], so the World State maps
      a key to the text of its value.
    - A JavaScript number is an IEEE-754 binary64 value, kept as an integer
      significand and a binary exponent; conversions from and to decimal text
      are computed with exact integer arithmetic.
    - Exceptions are values: a transaction returns or throws, and carries the
      World State it has built so far. *)

From Stdlib Require Import Ascii ZArith NArith Lia.
From stdpp Require Import gmap strings list sorting.

Local Open Scope Z_scope.

(** ** Text *)

Definition dquote : ascii := "034"%char.
Definition backslash : ascii := "092"%char.

(** A one-character string, and the quotation mark as a string. *)
Definition str1 (c : ascii) : string := String c EmptyString.
Definition DQ : string := str1 dquote.

(** [Array.prototype.join] on strings. *)
Fixpoint join (sep : string) (l : list string) : string :=
  match l with
  | [] => EmptyString
  | [x] => x
  | x :: l' => x +:+ sep +:+ join sep l'
  end.

Fixpoint repeat_string (n : nat) (s : string) : string :=
  match n with
  | O => EmptyString
  | S n' => s +:+ repeat_string n' s
  end.

Definition digit_char (d : N) : ascii := ascii_of_N (48 + d).

(** Decimal digits of a natural number, most significant first; [fuel]
    bounds the number of digits. *)
Fixpoint decimal_digits (fuel : nat) (n : N) (acc : string) : string :=
  match fuel with
  | O => acc
  | S fuel' =>
      let acc' := String (digit_char (n mod 10)%N) acc in
      if (n <? 10)%N then acc' else decimal_digits fuel' (n / 10)%N acc'
  end.

Definition N_to_string (n : N) : string :=
  decimal_digits (S (N.to_nat (N.log2 n))) n EmptyString.

Definition is_digit (c : ascii) : bool :=
  let n := N_of_ascii c in ((48 <=? n) && (n <=? 57))%N.

Definition digit_value (c : ascii) : N := (N_of_ascii c - 48)%N.

(** Value of a string of decimal digits. *)
Fixpoint digits_value (s : string) (acc : N) : N :=
  match s with
  | EmptyString => acc
  | String c s' => digits_value s' (10 * acc + digit_value c)%N
  end.

Fixpoint all_digits (s : string) : bool :=
  match s with
  | EmptyString => true
  | String c s' => is_digit c && all_digits s'
  end.

(** ** Numbers

    ECMAScript numbers are binary64 floating-point values.  JSON text can
    denote the finite ones and, by overflow, the two infinities. *)

Module Number.

(** [Finite neg m e] is (-1)^neg * m * 2^e with m < 2^53 and
    -1074 <= e <= 971, the significand kept in [2^52, 2^53) whenever the
    value is normal; zero is [Finite _ 0 0]. *)
Inductive t : Type :=
| Finite (neg : bool) (m : N) (e : Z)
| Infinite (neg : bool).

Definition eqb (x y : t) : bool :=
  match x, y with
  | Finite n1 m1 e1, Finite n2 m2 e2 =>
      Bool.eqb n1 n2 && (m1 =? m2)%N && (e1 =? e2)
  | Infinite n1, Infinite n2 => Bool.eqb n1 n2
  | _, _ => false
  end.

(** The binary64 value nearest to the positive rational [num / den],
    ties to the even significand. *)
Definition round (neg : bool) (num den : Z) : t :=
  if num =? 0 then Finite neg 0 0 else
  let lg := Z.log2 num - Z.log2 den in
  let above :=
    if 0 <=? lg then den * 2 ^ lg <=? num else den <=? num * 2 ^ (- lg) in
  let b := if above then lg else lg - 1 in
  let e := Z.max (b - 52) (-1074) in
  let n' := num * 2 ^ Z.max (- e) 0 in
  let d' := den * 2 ^ Z.max e 0 in
  let q := n' / d' in
  let r := n' mod d' in
  let q := if (d' <? 2 * r) || ((d' =? 2 * r) && Z.odd q) then q + 1 else q in
  let e := if q =? 2 ^ 53 then e + 1 else e in
  let q := if q =? 2 ^ 53 then 2 ^ 52 else q in
  if q =? 0 then Finite neg 0 0
  else if 971 <? e then Infinite neg
  else Finite neg (Z.to_N q) e.

(** The value of the decimal numeral [digits * 10^e10]. *)
Definition of_decimal (neg : bool) (digits : N) (e10 : Z) : t :=
  if (digits =? 0)%N then Finite neg 0 0 else
  let magnitude := Z.of_nat (String.length (N_to_string digits)) + e10 in
  if 400 <? magnitude then Infinite neg
  else if magnitude <? -400 then Finite neg 0 0
  else round neg (Z.of_N digits * 10 ^ Z.max e10 0) (10 ^ Z.max (- e10) 0).

(** [n] with 10^(n-1) <= num/den < 10^n, for a positive rational. *)
Fixpoint small_exponent (fuel : nat) (num den : Z) (n : Z) : Z :=
  match fuel with
  | O => n
  | S fuel' =>
      if den <=? num * 10 then n else small_exponent fuel' (num * 10) den (n - 1)
  end.

Definition decimal_exponent (num den : Z) : Z :=
  if den <=? num
  then Z.of_nat (String.length (N_to_string (Z.to_N (num / den))))
  else small_exponent 400 num den 0.

(** The shortest decimal significand that reads back as [x], and among
    those the one nearest to [x]: the integer [s] and the exponent [p] of
    s * 10^p. *)
Fixpoint shortest (fuel : nat) (x : t) (num den : Z) (n0 : Z) (k : Z) : Z * Z :=
  let p := n0 - k in
  let a := num * 10 ^ Z.max (- p) 0 in
  let b := den * 10 ^ Z.max p 0 in
  let lo := a / b in
  let r := a mod b in
  match fuel with
  | O => (lo, p)
  | S fuel' =>
      let reads s := eqb (round false (s * 10 ^ Z.max p 0) (10 ^ Z.max (- p) 0)) x in
      let lo_ok := reads lo in
      let hi_ok := reads (lo + 1) in
      let lo_nearer := (2 * r <? b) || ((2 * r =? b) && Z.even lo) in
      if lo_ok && (negb hi_ok || lo_nearer) then (lo, p)
      else if hi_ok then (lo + 1, p)
      else shortest fuel' x num den n0 (k + 1)
  end.

Fixpoint strip_zeros_rev (s : string) : string :=
  match s with
  | String "0" s' => strip_zeros_rev s'
  | _ => s
  end.

Definition strip_trailing_zeros (s : string) : string :=
  String.rev (strip_zeros_rev (String.rev s)).

Fixpoint take (n : nat) (s : string) : string :=
  match n, s with
  | S n', String c s' => String c (take n' s')
  | _, _ => EmptyString
  end.

Fixpoint drop (n : nat) (s : string) : string :=
  match n, s with
  | S n', String _ s' => drop n' s'
  | _, _ => s
  end.

(** The layout rules of Number::toString for a value with decimal digits
    [ds] and decimal point after [n] digits. *)
Definition layout (ds : string) (n : Z) : string :=
  let k := Z.of_nat (String.length ds) in
  if (k <=? n) && (n <=? 21) then
    ds +:+ repeat_string (Z.to_nat (n - k)) "0"
  else if (0 <? n) && (n <=? 21) then
    take (Z.to_nat n) ds +:+ "." +:+ drop (Z.to_nat n) ds
  else if (-6 <? n) && (n <=? 0) then
    "0." +:+ repeat_string (Z.to_nat (- n)) "0" +:+ ds
  else
    let e := n - 1 in
    let exponent :=
      (if 0 <=? e then "+" else "-") +:+ N_to_string (Z.to_N (Z.abs e)) in
    if k =? 1 then ds +:+ "e" +:+ exponent
    else take 1 ds +:+ "." +:+ drop 1 ds +:+ "e" +:+ exponent.

(** Number::toString in radix 10. *)
Definition toString (x : t) : string :=
  match x with
  | Infinite neg => if neg then "-Infinity" else "Infinity"
  | Finite neg m e =>
      if (m =? 0)%N then "0" else
      let num := Z.of_N m * 2 ^ Z.max e 0 in
      let den := 2 ^ Z.max (- e) 0 in
      let n0 := decimal_exponent num den in
      let '(s, p) := shortest 17 (Finite false m e) num den n0 1 in
      let all := N_to_string (Z.to_N s) in
      let n := p + Z.of_nat (String.length all) in
      (if neg then "-" else EmptyString) +:+ layout (strip_trailing_zeros all) n
  end.

(** A number as [JSON.stringify] writes it. *)
Definition toJSON (x : t) : string :=
  match x with
  | Infinite _ => "null"
  | Finite _ _ _ => toString x
  end.

End Number.

(** ** Values and ordinary objects *)

(** The values [JSON.parse] can produce.  An object lists its own
    properties in property order. *)
#[local] Unset Elimination Schemes.
Inductive json : Type :=
| JNull
| JBool (b : bool)
| JNum (n : Number.t)
| JStr (s : string)
| JArr (elements : list json)
| JObj (properties : list (string * json)).
#[local] Set Elimination Schemes.

(** A property name that is an array index: the canonical decimal form of
    an integer below 2^32 - 1. *)
Definition array_index (k : string) : option N :=
  match k with
  | EmptyString => None
  | String c rest =>
      if all_digits k && (negb (Ascii.eqb c "0") || String.eqb rest EmptyString)
         && (String.length k <=? 10)%nat
      then
        let n := digits_value k 0 in
        if (n <? 4294967295)%N then Some n else None
      else None
  end.

Section Properties.
Context {A : Type}.

Fixpoint own_property (k : string) (o : list (string * A)) : option A :=
  match o with
  | [] => None
  | (k', v) :: o' => if String.eqb k k' then Some v else own_property k o'
  end.

Fixpoint replace_property (k : string) (v : A) (o : list (string * A))
  : list (string * A) :=
  match o with
  | [] => []
  | (k', v') :: o' =>
      if String.eqb k k' then (k', v) :: o'
      else (k', v') :: replace_property k v o'
  end.

(** Index-named properties come first, in ascending numeric order. *)
Fixpoint insert_index (n : N) (k : string) (v : A) (o : list (string * A))
  : list (string * A) :=
  match o with
  | [] => [(k, v)]
  | (k', v') :: o' =>
      match array_index k' with
      | Some n' =>
          if (n' <? n)%N then (k', v') :: insert_index n k v o'
          else (k, v) :: o
      | None => (k, v) :: o
      end
  end.

(** CreateDataProperty on an ordinary object: an existing property keeps
    its place and takes the new value; a new one is added in property
    order (array indices ascending, then other names as they come). *)
Definition define_property (k : string) (v : A) (o : list (string * A))
  : list (string * A) :=
  match own_property k o with
  | Some _ => replace_property k v o
  | None =>
      match array_index k with
      | Some n => insert_index n k v o
      | None => o ++ [(k, v)]
      end
  end.
End Properties.

(** ** JSON.stringify *)

Definition hex_digit (d : N) : ascii :=
  if (d <? 10)%N then ascii_of_N (48 + d) else ascii_of_N (87 + d).

(** The four lower-case hexadecimal digits of a code unit. *)
Definition hex4 (n : N) : string :=
  String (hex_digit (n / 4096 mod 16)%N)
    (String (hex_digit (n / 256 mod 16)%N)
       (String (hex_digit (n / 16 mod 16)%N)
          (String (hex_digit (n mod 16)%N) EmptyString))).

(** A string holds its code units in UTF-8, and a surrogate (D800 to DFFF)
    in the three bytes this form gives a code point of that size: [ED], a
    byte from [A0] to [BF], a byte from [80] to [BF]. *)
Definition is_high_surrogate (n : N) : bool := ((55296 <=? n) && (n <? 56320))%N.
Definition is_low_surrogate (n : N) : bool := ((56320 <=? n) && (n <? 57344))%N.

Definition surrogate (b1 b2 b3 : ascii) : option N :=
  let n2 := N_of_ascii b2 in
  let n3 := N_of_ascii b3 in
  if (Ascii.eqb b1 "237" && (160 <=? n2) && (n2 <? 192)
      && (128 <=? n3) && (n3 <? 192))%N
  then Some (53248 + (n2 - 128) * 64 + (n3 - 128))%N
  else None.

Definition is_low_triple (b1 b2 b3 : ascii) : bool :=
  match surrogate b1 b2 b3 with
  | Some n => is_low_surrogate n
  | None => false
  end.

(** QuoteJSONString on one character that is no surrogate: the
    two-character escapes, [\u00XX] for the other control characters,
    everything else as it is. *)
Definition escape_char (c : ascii) : string :=
  if Ascii.eqb c "008" then "\b"
  else if Ascii.eqb c "009" then "\t"
  else if Ascii.eqb c "010" then "\n"
  else if Ascii.eqb c "012" then "\f"
  else if Ascii.eqb c "013" then "\r"
  else if Ascii.eqb c dquote then String backslash DQ
  else if Ascii.eqb c backslash then "\\"
  else if (N_of_ascii c <? 32)%N then "\u" +:+ hex4 (N_of_ascii c)
  else str1 c.

(** QuoteJSONString on the characters of a string.  A high surrogate with
    a low one right after it is a pair, one code point, written as it is;
    any other surrogate is written as the escape [\udXXX] of its code
    unit, in lower-case digits. *)
Fixpoint escape (s : string) : string :=
  match s with
  | EmptyString => EmptyString
  | String c s1 =>
      match s1 with
      | String c2 (String c3 s3) =>
          match surrogate c c2 c3 with
          | Some n =>
              match s3 with
              | String d1 (String d2 (String d3 s6)) =>
                  if is_high_surrogate n && is_low_triple d1 d2 d3 then
                    String c (String c2 (String c3
                      (String d1 (String d2 (String d3 (escape s6))))))
                  else "\u" +:+ hex4 n +:+ escape s3
              | _ => "\u" +:+ hex4 n +:+ escape s3
              end
          | None => escape_char c +:+ escape s1
          end
      | _ => escape_char c +:+ escape s1
      end
  end.

Definition QuoteJSONString (s : string) : string :=
  DQ +:+ escape s +:+ DQ.

(** [JSON.stringify] without replacer or indentation, on a parsed value:
    properties in property order, no white space. *)
Fixpoint JSON_stringify (j : json) : string :=
  match j with
  | JNull => "null"
  | JBool b => if b then "true" else "false"
  | JNum n => Number.toJSON n
  | JStr s => QuoteJSONString s
  | JArr l => "[" +:+ join "," (JSON_stringify <$> l) +:+ "]"
  | JObj o =>
      "{" +:+ join ","
        ((fun kv : string * json =>
            QuoteJSONString kv.1 +:+ ":" +:+ JSON_stringify kv.2) <$> o)
      +:+ "}"
  end.

(** ** JSON.parse *)

Definition is_ws (c : ascii) : bool :=
  Ascii.eqb c " " || Ascii.eqb c "009" || Ascii.eqb c "010" || Ascii.eqb c "013".

Fixpoint skip_ws (s : string) : string :=
  match s with
  | String c s' => if is_ws c then skip_ws s' else s
  | EmptyString => s
  end.

Definition hex_value (c : ascii) : option N :=
  let n := N_of_ascii c in
  if ((48 <=? n) && (n <=? 57))%N then Some (n - 48)%N
  else if ((65 <=? n) && (n <=? 70))%N then Some (n - 55)%N
  else if ((97 <=? n) && (n <=? 102))%N then Some (n - 87)%N
  else None.

Definition hex4_value (a b c d : ascii) : option N :=
  match hex_value a, hex_value b, hex_value c, hex_value d with
  | Some x, Some y, Some z, Some w => Some (((x * 16 + y) * 16 + z) * 16 + w)%N
  | _, _, _, _ => None
  end.

(** UTF-8 bytes of a code point (a lone surrogate takes the three-byte
    form). *)
Definition utf8 (n : N) : string :=
  (if n <? 128 then str1 (ascii_of_N n)
   else if n <? 2048 then
     String (ascii_of_N (192 + n / 64)) (str1 (ascii_of_N (128 + n mod 64)))
   else if n <? 65536 then
     String (ascii_of_N (224 + n / 4096))
       (String (ascii_of_N (128 + n / 64 mod 64))
          (str1 (ascii_of_N (128 + n mod 64))))
   else
     String (ascii_of_N (240 + n / 262144))
       (String (ascii_of_N (128 + n / 4096 mod 64))
          (String (ascii_of_N (128 + n / 64 mod 64))
             (str1 (ascii_of_N (128 + n mod 64))))))%N.

(** The low surrogate written by the escape [\ul1l2l3l4], if it is one. *)
Definition surrogate_pair (b u l1 l2 l3 l4 : ascii) : option N :=
  if Ascii.eqb b backslash && Ascii.eqb u "u" then
    match hex4_value l1 l2 l3 l4 with
    | Some lo => if ((56320 <=? lo) && (lo <? 57344))%N then Some lo else None
    | None => None
    end
  else None.

(** A text that does not open with the escape of a low surrogate. *)
Definition no_low_escape (s : string) : bool :=
  match s with
  | String b (String u (String l1 (String l2 (String l3 (String l4 _))))) =>
      match surrogate_pair b u l1 l2 l3 l4 with
      | Some _ => false
      | None => true
      end
  | _ => true
  end.

(** A string that opens with a low surrogate. *)
Definition low_follows (s : string) : bool :=
  match s with
  | String d1 (String d2 (String d3 _)) => is_low_triple d1 d2 d3
  | _ => false
  end.

Definition code_point (hi lo : N) : N :=
  (65536 + (hi - 55296) * 1024 + (lo - 56320))%N.

Definition simple_escape (e : ascii) : option ascii :=
  if Ascii.eqb e dquote then Some dquote
  else if Ascii.eqb e backslash then Some backslash
  else if Ascii.eqb e "/" then Some "/"%char
  else if Ascii.eqb e "b" then Some "008"%char
  else if Ascii.eqb e "f" then Some "012"%char
  else if Ascii.eqb e "n" then Some "010"%char
  else if Ascii.eqb e "r" then Some "013"%char
  else if Ascii.eqb e "t" then Some "009"%char
  else None.

Definition prepend (p : string) (r : option (string * string))
  : option (string * string) :=
  match r with
  | Some (t, rest) => Some (p +:+ t, rest)
  | None => None
  end.

(** The characters of a string literal after its opening quote, up to the
    closing one: the string denoted and the text that follows. *)
Fixpoint parse_chars (s : string) : option (string * string) :=
  match s with
  | EmptyString => None
  | String c s1 =>
      if Ascii.eqb c dquote then Some (EmptyString, s1)
      else if Ascii.eqb c backslash then
        match s1 with
        | EmptyString => None
        | String e s2 =>
            if Ascii.eqb e "u" then
              match s2 with
              | String h1 (String h2 (String h3 (String h4 s3))) =>
                  match hex4_value h1 h2 h3 h4 with
                  | Some hi =>
                      if is_high_surrogate hi then
                        match s3 with
                        | String b (String u (String l1 (String l2
                            (String l3 (String l4 s4))))) =>
                            match surrogate_pair b u l1 l2 l3 l4 with
                            | Some lo =>
                                prepend (utf8 (code_point hi lo)) (parse_chars s4)
                            | None => prepend (utf8 hi) (parse_chars s3)
                            end
                        | _ => prepend (utf8 hi) (parse_chars s3)
                        end
                      else prepend (utf8 hi) (parse_chars s3)
                  | None => None
                  end
              | _ => None
              end
            else
              match simple_escape e with
              | Some c' => prepend (str1 c') (parse_chars s2)
              | None => None
              end
        end
      else if (N_of_ascii c <? 32)%N then None
      else prepend (str1 c) (parse_chars s1)
  end.

Fixpoint take_digits (s : string) : string * string :=
  match s with
  | String c s' =>
      if is_digit c
      then let (d, r) := take_digits s' in (String c d, r)
      else (EmptyString, s)
  | EmptyString => (EmptyString, s)
  end.

Definition parse_fraction (s : string) : option (string * string) :=
  match s with
  | String c s' =>
      if Ascii.eqb c "." then
        match take_digits s' with
        | (EmptyString, _) => None
        | (d, r) => Some (d, r)
        end
      else Some (EmptyString, s)
  | EmptyString => Some (EmptyString, s)
  end.

Definition parse_exponent (s : string) : option (Z * string) :=
  match s with
  | String c s' =>
      if Ascii.eqb c "e" || Ascii.eqb c "E" then
        let (neg, s'') :=
          match s' with
          | String sign t =>
              if Ascii.eqb sign "-" then (true, t)
              else if Ascii.eqb sign "+" then (false, t)
              else (false, s')
          | EmptyString => (false, s')
          end in
        match take_digits s'' with
        | (EmptyString, _) => None
        | (d, r) =>
            let e := Z.of_N (digits_value d 0) in
            Some (if neg then - e else e, r)
        end
      else Some (0, s)
  | EmptyString => Some (0, s)
  end.

(** A JSON number: an optional minus, an integer part without a leading
    zero, an optional fraction and an optional exponent. *)
Definition parse_number (s : string) : option (Number.t * string) :=
  let (neg, s1) :=
    match s with
    | String sign t => if Ascii.eqb sign "-" then (true, t) else (false, s)
    | EmptyString => (false, s)
    end in
  match take_digits s1 with
  | (EmptyString, _) => None
  | (String d ds as int, s2) =>
      if Ascii.eqb d "0" && negb (String.eqb ds EmptyString) then None
      else
        match parse_fraction s2 with
        | Some (frac, s3) =>
            match parse_exponent s3 with
            | Some (e, s4) =>
                Some (Number.of_decimal neg (digits_value (int +:+ frac) 0)
                        (e - Z.of_nat (String.length frac)), s4)
            | None => None
            end
        | None => None
        end
  end.

Fixpoint strip_prefix (p s : string) : option string :=
  match p, s with
  | EmptyString, _ => Some s
  | String a p', String b s' => if Ascii.eqb a b then strip_prefix p' s' else None
  | _, EmptyString => None
  end.

Definition parse_literal (word : string) (v : json) (s : string)
  : option (json * string) :=
  match strip_prefix word s with
  | Some r => Some (v, r)
  | None => None
  end.

(** A JSON value, then the elements of an array after its first bracket
    and the members of an object after its first brace.  Every call spends
    one unit of [fuel]; a member that repeats a name replaces the earlier
    value, as CreateDataProperty does. *)
Fixpoint parse_value (fuel : nat) (s : string) : option (json * string) :=
  match fuel with
  | O => None
  | S fuel' =>
      match skip_ws s with
      | EmptyString => None
      | String c r =>
          if Ascii.eqb c "{" then
            match skip_ws r with
            | String c' r' =>
                if Ascii.eqb c' "}" then Some (JObj [], r')
                else parse_members fuel' r []
            | EmptyString => None
            end
          else if Ascii.eqb c "[" then
            match skip_ws r with
            | String c' r' =>
                if Ascii.eqb c' "]" then Some (JArr [], r')
                else parse_elements fuel' r []
            | EmptyString => None
            end
          else if Ascii.eqb c dquote then
            match parse_chars r with
            | Some (str, r') => Some (JStr str, r')
            | None => None
            end
          else if Ascii.eqb c "t" then parse_literal "rue" (JBool true) r
          else if Ascii.eqb c "f" then parse_literal "alse" (JBool false) r
          else if Ascii.eqb c "n" then parse_literal "ull" JNull r
          else
            match parse_number (String c r) with
            | Some (n, r') => Some (JNum n, r')
            | None => None
            end
      end
  end
with parse_elements (fuel : nat) (s : string) (acc : list json)
  : option (json * string) :=
  match fuel with
  | O => None
  | S fuel' =>
      match parse_value fuel' s with
      | Some (v, r) =>
          match skip_ws r with
          | String c r' =>
              if Ascii.eqb c "," then parse_elements fuel' r' (acc ++ [v])
              else if Ascii.eqb c "]" then Some (JArr (acc ++ [v]), r')
              else None
          | EmptyString => None
          end
      | None => None
      end
  end
with parse_members (fuel : nat) (s : string) (acc : list (string * json))
  : option (json * string) :=
  match fuel with
  | O => None
  | S fuel' =>
      match skip_ws s with
      | String q r =>
          if Ascii.eqb q dquote then
            match parse_chars r with
            | Some (k, r1) =>
                match skip_ws r1 with
                | String c r2 =>
                    if Ascii.eqb c ":" then
                      match parse_value fuel' r2 with
                      | Some (v, r3) =>
                          match skip_ws r3 with
                          | String d r4 =>
                              if Ascii.eqb d "," then
                                parse_members fuel' r4 (define_property k v acc)
                              else if Ascii.eqb d "}" then
                                Some (JObj (define_property k v acc), r4)
                              else None
                          | EmptyString => None
                          end
                      | None => None
                      end
                    else None
                | EmptyString => None
                end
            | None => None
            end
          else None
      | EmptyString => None
      end
  end.

(** [JSON.parse text]: [None] stands for the SyntaxError it throws.  The
    fuel is more than any text can use: a nested call follows at least one
    character of input, and at most two calls follow the same one. *)
Definition JSON_parse (text : string) : option json :=
  match parse_value (2 * String.length text + 2) text with
  | Some (v, r) =>
      match skip_ws r with
      | EmptyString => Some v
      | String _ _ => None
      end
  | None => None
  end.

(** JSON text written with apostrophes in place of quotes. *)
Fixpoint q (s : string) : string :=
  match s with
  | EmptyString => EmptyString
  | String c s' => String (if Ascii.eqb c "'" then dquote else c) (q s')
  end.

(** ** The canonical encoder *)

(** Entries compared by key, byte by byte: the key order of the ledger, and
    on the ASCII names this contract uses the order in which JavaScript
    sorts strings. *)
Definition key_le {A : Type} (a b : string * A) : Prop := String.le a.1 b.1.

#[global] Instance key_le_dec {A : Type} : RelDecision (@key_le A).
Proof. intros a b. unfold key_le. apply _. Defined.

(** A function applied to the value of every entry. *)
Definition on_values {A B : Type} (f : A -> B) (o : list (string * A))
  : list (string * B) :=
  (fun kv : string * A => (kv.1, f kv.2)) <$> o.

(** Modelled from the spec: the package sort-keys-recursive is imported by
    the contract and is not among its sources.  Section 4.1: it sorts the
    keys of a mapping at every nesting level.  The sorted entries are put
    into a fresh object one after the other.  The contract applies it to
    objects of three strings only. *)
Fixpoint sortKeysRecursive (j : json) : json :=
  match j with
  | JArr l => JArr (sortKeysRecursive <$> l)
  | JObj o =>
      JObj (foldl (fun acc kv => define_property kv.1 kv.2 acc) []
              (merge_sort key_le (on_values sortKeysRecursive o)))
  | _ => j
  end.

(** One member of an object, written. *)
Definition member (ks : string * string) : string :=
  QuoteJSONString ks.1 +:+ ":" +:+ ks.2.

(** Modelled from the spec: the package json-stringify-deterministic is
    imported by the contract and is not among its sources.  Section 4.1: it
    writes a value as JSON text with the keys of every object in sorted
    order, fixed separators and no white space. *)
Fixpoint stringify (j : json) : string :=
  match j with
  | JArr l => "[" +:+ join "," (stringify <$> l) +:+ "]"
  | JObj o =>
      "{" +:+ join "," (member <$> merge_sort key_le (on_values stringify o))
      +:+ "}"
  | _ => JSON_stringify j
  end.

(** ** The ledger stub *)

(** What a transaction throws. *)
Inductive JsError : Type :=
| Error (message : string)
| TypeError.

Inductive outcome (A : Type) : Type :=
| Returns (a : A)
| Throws (e : JsError).
Arguments Returns {A} a.
Arguments Throws {A} e.

(** A transaction runs against the World State and returns or throws; the
    state it hands back holds the writes it has issued.  Writes are applied
    as they are issued: no method of the contract reads a key after writing
    it, so the result is that of a ledger that applies them on commit. *)
Definition Tx (A : Type) : Type :=
  gmap string string -> outcome A * gmap string string.

#[global] Instance Tx_ret : MRet Tx := fun A a σ => (Returns a, σ).

#[global] Instance Tx_bind : MBind Tx := fun A B k m σ =>
  match m σ with
  | (Returns a, σ') => k a σ'
  | (Throws e, σ') => (Throws e, σ')
  end.

Definition throw {A : Type} (e : JsError) : Tx A := fun σ => (Throws e, σ).

(** [ctx.stub.getState]: the stored text, empty for a key that is not
    there. *)
Definition getState (key : string) : Tx string :=
  fun σ => (Returns (default EmptyString (σ !! key)), σ).

Definition putState (key value : string) : Tx unit :=
  fun σ => (Returns tt, <[key := value]> σ).

Definition deleteState (key : string) : Tx unit :=
  fun σ => (Returns tt, delete key σ).

(** The entries of the World State in key order. *)
Definition entries (σ : gmap string string) : list (string * string) :=
  merge_sort key_le (map_to_list σ).

(** A key lies in a range from [startKey], included, to [endKey],
    excluded; an empty [endKey] leaves the range open. *)
Definition in_range (startKey endKey key : string) : bool :=
  String.leb startKey key
  && (String.eqb endKey EmptyString || String.ltb key endKey).

(** [ctx.stub.getStateByRange]: an iterator over the entries in the range,
    in key order, of the state as it is when the iterator is opened.  The
    iterator is the list of what [next()] yields until it is done. *)
Definition getStateByRange (startKey endKey : string)
  : Tx (list (string * string)) :=
  fun σ =>
    (Returns (List.filter (fun entry => in_range startKey endKey entry.1)
                (entries σ)), σ).

(** [for (const x of xs) { await body(x) }] *)
Fixpoint for_of {A : Type} (xs : list A) (body : A -> Tx unit) : Tx unit :=
  match xs with
  | [] => mret tt
  | x :: xs' => body x ;; for_of xs' body
  end.

(** ** The object that collects the tally *)

(** The values a property of [allResults] can be read as.  A count is a
    natural number: adding one is exact far beyond any number of stored
    entries. *)
Inductive value : Type :=
| VUndefined
| VNumber (n : nat)
| VNaN
| VString (s : string)
| VFunction (name : string)
| VObjectPrototype.

(** The properties every ordinary object inherits from [Object.prototype]:
    eleven built-in functions and the accessor [__proto__], which reads as
    the prototype itself. *)
Definition Object_prototype (k : string) : option value :=
  if String.eqb k "constructor" then Some (VFunction "Object")
  else if String.eqb k "__proto__" then Some VObjectPrototype
  else if bool_decide (k ∈ ["__defineGetter__"; "__defineSetter__";
                            "hasOwnProperty"; "__lookupGetter__";
                            "__lookupSetter__"; "isPrototypeOf";
                            "propertyIsEnumerable"; "toString"; "valueOf";
                            "toLocaleString"])
  then Some (VFunction k)
  else None.

(** [o[k]]: an own property, else an inherited one, else [undefined]. *)
Definition Get (o : list (string * value)) (k : string) : value :=
  match own_property k o with
  | Some v => v
  | None => default VUndefined (Object_prototype k)
  end.

(** [o[k] = v] for a primitive [v]: the setter of [__proto__] ignores it,
    any other name becomes or stays an own property. *)
Definition Put (o : list (string * value)) (k : string) (v : value)
  : list (string * value) :=
  if String.eqb k "__proto__" then o else define_property k v o.

Definition ToBoolean (v : value) : bool :=
  match v with
  | VUndefined | VNaN | VNumber O => false
  | VString s => negb (String.eqb s EmptyString)
  | _ => true
  end.

(** [v + 1]: addition on a number; on anything that turns into a string,
    concatenation with that string. *)
Definition plus_one (v : value) : value :=
  match v with
  | VNumber n => VNumber (n + 1)
  | VUndefined | VNaN => VNaN
  | VString s => VString (s +:+ "1")
  | VFunction name => VString ("function " +:+ name +:+ "() { [native code] }1")
  | VObjectPrototype => VString "[object Object]1"
  end.

(** [JSON.stringify] on the collected object. *)
Definition stringify_value (v : value) : option string :=
  match v with
  | VNumber n => Some (N_to_string (N.of_nat n))
  | VNaN => Some "null"
  | VString s => Some (QuoteJSONString s)
  | VUndefined | VFunction _ | VObjectPrototype => None
  end.

Definition stringify_results (o : list (string * value)) : string :=
  "{" +:+ join ","
    (omap (fun kv : string * value =>
             match stringify_value kv.2 with
             | Some s => Some (QuoteJSONString kv.1 +:+ ":" +:+ s)
             | None => None
             end) o)
  +:+ "}".

(** [vote.CandidateID] on a parsed value: [None] is [undefined]. *)
Definition get_CandidateID (vote : json) : outcome (option json) :=
  match vote with
  | JNull => Throws TypeError
  | JObj o => Returns (own_property "CandidateID" o)
  | _ => Returns None
  end.

(** ToString on a parsed value.  An array joins its elements, [null]
    counting as empty; an object is written by the inherited [toString]
    unless an own property of that name hides it. *)
Fixpoint ToString (j : json) : outcome string :=
  match j with
  | JNull => Returns "null"
  | JBool b => Returns (if b then "true" else "false")
  | JNum n => Returns (Number.toString n)
  | JStr s => Returns s
  | JArr l =>
      match
        (fix items (l : list json) : outcome (list string) :=
           match l with
           | [] => Returns []
           | x :: l' =>
               match (match x with JNull => Returns EmptyString | _ => ToString x end) with
               | Returns s =>
                   match items l' with
                   | Returns ss => Returns (s :: ss)
                   | Throws e => Throws e
                   end
               | Throws e => Throws e
               end
           end) l
      with
      | Returns ss => Returns (join "," ss)
      | Throws e => Throws e
      end
  | JObj o =>
      match own_property "toString" o with
      | Some _ => Throws TypeError
      | None => Returns "[object Object]"
      end
  end.

Definition ToPropertyKey (v : option json) : outcome string :=
  match v with
  | None => Returns "undefined"
  | Some j => ToString j
  end.

(** ** The contract *)

Record Vote : Type := {
  VoterID : string;
  CandidateID : string;
  Station : string;
}.

(** An object literal of type [Vote], its properties in the order the
    source writes them. *)
Definition Vote_object (vote : Vote) : json :=
  JObj [("VoterID", JStr (VoterID vote));
        ("CandidateID", JStr (CandidateID vote));
        ("Station", JStr (Station vote))].

(** [Buffer.from(text)] and [buffer.toString()]: a stored value is kept as
    its text, so both leave it as it is. *)
Definition Buffer_from (text : string) : string := text.
Definition Buffer_toString (buffer : string) : string := buffer.

Definition InitLedger : Tx unit :=
  let votes : list Vote :=
    [ {| VoterID := "voter1"; CandidateID := "candidate1"; Station := "station1" |};
      {| VoterID := "voter2"; CandidateID := "candidate2"; Station := "station2" |} ] in
  for_of votes (fun vote =>
    putState (VoterID vote)
      (Buffer_from (stringify (sortKeysRecursive (Vote_object vote))))).

Definition VoteExists (voterID : string) : Tx bool :=
  voteJSON ← getState voterID;
  mret (0 <? String.length voteJSON)%nat.

Definition RegisterVote (voterID candidateID station : string) : Tx unit :=
  exists_ ← VoteExists voterID;
  if exists_ : bool then
    throw (Error ("The vote from voter " +:+ voterID +:+ " already exists"))
  else
    let vote :=
      {| VoterID := voterID; CandidateID := candidateID; Station := station |} in
    putState voterID
      (Buffer_from (stringify (sortKeysRecursive (Vote_object vote)))).

Definition ReadVote (voterID : string) : Tx string :=
  voteJSON ← getState voterID;
  if (String.length voteJSON =? 0)%nat then
    throw (Error ("The vote from voter " +:+ voterID +:+ " does not exist"))
  else mret (Buffer_toString voteJSON).

Definition UpdateVote (voterID candidateID station : string) : Tx unit :=
  exists_ ← VoteExists voterID;
  if negb exists_ then
    throw (Error ("The vote from voter " +:+ voterID +:+ " does not exist"))
  else
    let updatedVote :=
      {| VoterID := voterID; CandidateID := candidateID; Station := station |} in
    putState voterID
      (Buffer_from (stringify (sortKeysRecursive (Vote_object updatedVote)))).

Definition DeleteVote (voterID : string) : Tx unit :=
  exists_ ← VoteExists voterID;
  if negb exists_ then
    throw (Error ("The vote from voter " +:+ voterID +:+ " does not exist"))
  else deleteState voterID.

(** The loop of [GetVoteStatistics] over the entries the iterator yields.
    A value that [JSON.parse] rejects is logged and passed over; any other
    is read as a [Vote] and counted under its [CandidateID]. *)
Fixpoint tally (iterator : list (string * string))
    (allResults : list (string * value)) : outcome (list (string * value)) :=
  match iterator with
  | [] => Returns allResults
  | result :: rest =>
      let strValue := Buffer_toString (Buffer_from (Buffer_toString result.2)) in
      match JSON_parse strValue with
      | None => tally rest allResults
      | Some vote =>
          match get_CandidateID vote with
          | Throws e => Throws e
          | Returns candidate =>
              match ToPropertyKey candidate with
              | Throws e => Throws e
              | Returns k =>
                  let allResults :=
                    if negb (ToBoolean (Get allResults k))
                    then Put allResults k (VNumber 0)
                    else allResults in
                  let allResults :=
                    Put allResults k (plus_one (Get allResults k)) in
                  tally rest allResults
              end
          end
      end
  end.

Definition GetVoteStatistics : Tx string :=
  iterator ← getStateByRange EmptyString EmptyString;
  match tally iterator [] with
  | Returns allResults => mret (stringify_results allResults)
  | Throws e => throw e
  end.

(** The loop of [GetAllVotes]: the parsed value of every entry, or its text
    when [JSON.parse] rejects it. *)
Fixpoint collect (iterator : list (string * string)) (allResults : list json)
  : list json :=
  match iterator with
  | [] => allResults
  | result :: rest =>
      let strValue := Buffer_toString (Buffer_from (Buffer_toString result.2)) in
      let record :=
        match JSON_parse strValue with
        | Some parsed => parsed
        | None => JStr strValue
        end in
      collect rest (allResults ++ [record])
  end.

Definition GetAllVotes : Tx string :=
  iterator ← getStateByRange EmptyString EmptyString;
  mret (JSON_stringify (JArr (collect iterator []))).

Definition DeleteAllVotes : Tx unit :=
  iterator ← getStateByRange EmptyString EmptyString;
  for_of iterator (fun result => deleteState result.1).

(** ** Vocabulary of the specification *)

Definition AlreadyExists (voterID : string) : JsError :=
  Error ("The vote from voter " +:+ voterID +:+ " already exists").

Definition NotFound (voterID : string) : JsError :=
  Error ("The vote from voter " +:+ voterID +:+ " does not exist").

(** The encoding the contract stores: the specification's [encode]. *)
Definition encode (record : json) : string :=
  stringify (sortKeysRecursive record).

(** The text of an encoded vote, field by field. *)
Definition Vote_text (v c s : string) : string :=
  q "{'CandidateID':'" +:+ escape c +:+ q "','Station':'" +:+ escape s
  +:+ q "','VoterID':'" +:+ escape v +:+ q "'}".

(** What an encoded vote parses to. *)
Definition Vote_parsed (v c s : string) : json :=
  JObj [("CandidateID", JStr c); ("Station", JStr s); ("VoterID", JStr v)].

(** What [GetAllVotes] keeps of one stored value. *)
Definition parsed_or_raw (strValue : string) : json :=
  match JSON_parse strValue with
  | Some parsed => parsed
  | None => JStr strValue
  end.

(** A record is well formed when no object in it names a field twice. *)
Fixpoint unique_keys (j : json) : bool :=
  match j with
  | JArr l => forallb unique_keys l
  | JObj o =>
      bool_decide (NoDup o.*1)
      && forallb (fun kv : string * json => let (_, v) := kv in unique_keys v) o
  | _ => true
  end.

(** Two records with the same fields and the same field values, the fields
    of every object in any order. *)
Fixpoint same_fields (r1 r2 : json) {struct r1} : bool :=
  match r1, r2 with
  | JNull, JNull => true
  | JBool a, JBool b => Bool.eqb a b
  | JNum a, JNum b => Number.eqb a b
  | JStr a, JStr b => String.eqb a b
  | JArr l1, JArr l2 =>
      (fix elements (l1 l2 : list json) : bool :=
         match l1, l2 with
         | [], [] => true
         | x :: l1', y :: l2' => same_fields x y && elements l1' l2'
         | _, _ => false
         end) l1 l2
  | JObj o1, JObj o2 =>
      (length o1 =? length o2)%nat
      && forallb (fun kv : string * json =>
                    let (k, v) := kv in
                    match own_property k o2 with
                    | Some v' => same_fields v v'
                    | None => false
                    end) o1
  | _, _ => false
  end.

(** The specification's Record is a vote: one string for each of
    [VoterID], [CandidateID] and [Station].  A stored text decodes as a
    Record when it is JSON text of an object with these three fields, in
    any order, and no other. *)
Definition decode_Record (text : string) : option Vote :=
  match JSON_parse text with
  | Some (JObj o) =>
      match own_property "VoterID" o, own_property "CandidateID" o,
            own_property "Station" o with
      | Some (JStr v), Some (JStr c), Some (JStr s) =>
          let vote := {| VoterID := v; CandidateID := c; Station := s |} in
          if same_fields (JObj o) (Vote_object vote) then Some vote else None
      | _, _, _ => None
      end
  | _ => None
  end.

(** What the specification's ScanAll puts in the place of a stored text:
    the decoded Record, or the text itself, as a string, when the text does
    not decode as a Record. *)
Definition decoded_or_raw (text : string) (record : json) : Prop :=
  match decode_Record text with
  | Some vote => same_fields record (Vote_object vote) = true
  | None => record = JStr text
  end.

(** A candidate name that [Object.prototype] does not define. *)
Definition plain (c : string) : bool :=
  match Object_prototype c with
  | Some _ => false
  | None => true
  end.

(** The number of votes a list holds for a candidate. *)
Fixpoint votes_for (c : string) (votes : list Vote) : nat :=
  match votes with
  | [] => O
  | vote :: votes' =>
      (if String.eqb (CandidateID vote) c then 1 else 0) + votes_for c votes'
  end.

(** The entry under which a vote is stored. *)
Definition ballot (vote : Vote) : string * string :=
  (VoterID vote, encode (Vote_object vote)).

(** A collected object that holds counts: each own property is a positive
    number, given by [f]. *)
Definition holds_counts (o : list (string * value)) (f : string -> nat) : Prop :=
  forall c, own_property c o = match f c with O => None | S n => Some (VNumber (S n)) end.

(** ** Transactions on the ledger *)

(** Whether a key holds a non-empty value. *)
Definition holds (σ : gmap string string) (key : string) : bool :=
  (0 <? String.length (default EmptyString (σ !! key)))%nat.

(** The World State after a transaction: the writes of one that returns
    are committed, those of one that throws are dropped. *)
Definition commit {A : Type} (tx : Tx A) (σ : gmap string string)
  : gmap string string :=
  match tx σ with
  | (Returns _, σ') => σ'
  | (Throws _, _) => σ
  end.

(** An invocation of one of the contract's methods. *)
Inductive Call : Type :=
| CallInitLedger
| CallRegisterVote (voterID candidateID station : string)
| CallReadVote (voterID : string)
| CallUpdateVote (voterID candidateID station : string)
| CallDeleteVote (voterID : string)
| CallVoteExists (voterID : string)
| CallGetVoteStatistics
| CallGetAllVotes
| CallDeleteAllVotes.

Definition invoke (call : Call) (σ : gmap string string) : gmap string string :=
  match call with
  | CallInitLedger => commit InitLedger σ
  | CallRegisterVote v c s => commit (RegisterVote v c s) σ
  | CallReadVote v => commit (ReadVote v) σ
  | CallUpdateVote v c s => commit (UpdateVote v c s) σ
  | CallDeleteVote v => commit (DeleteVote v) σ
  | CallVoteExists v => commit (VoteExists v) σ
  | CallGetVoteStatistics => commit GetVoteStatistics σ
  | CallGetAllVotes => commit GetAllVotes σ
  | CallDeleteAllVotes => commit DeleteAllVotes σ
  end.

(** A method run for its effect: its result is dropped. *)
Definition perform (call : Call) : Tx unit :=
  match call with
  | CallInitLedger => InitLedger
  | CallRegisterVote v c s => RegisterVote v c s
  | CallReadVote v => ReadVote v ;; mret tt
  | CallUpdateVote v c s => UpdateVote v c s
  | CallDeleteVote v => DeleteVote v
  | CallVoteExists v => VoteExists v ;; mret tt
  | CallGetVoteStatistics => GetVoteStatistics ;; mret tt
  | CallGetAllVotes => GetAllVotes ;; mret tt
  | CallDeleteAllVotes => DeleteAllVotes
  end.

(** An entry is a ballot when its value is the encoding of a vote whose
    voter is its key. *)
Definition is_ballot (entry : string * string) : bool :=
  match JSON_parse entry.2 with
  | Some (JObj [(k1, JStr c); (k2, JStr s); (k3, JStr v)]) =>
      String.eqb k1 "CandidateID" && String.eqb k2 "Station"
      && String.eqb k3 "VoterID" && String.eqb v entry.1
      && String.eqb entry.2 (Vote_text v c s)
  | _ => false
  end.

(** A World State in which every entry is a ballot. *)
Definition only_ballots (σ : gmap string string) : bool :=
  forallb is_ballot (entries σ).





(** * Properties *)

(** ** Examples of the platform model *)

Example Number_toString_examples :
  Number.toString (Number.of_decimal false 1 (-1)) = "0.1"
  /\ Number.toString (Number.of_decimal false 150 (-2)) = "1.5"
  /\ Number.toString (Number.of_decimal false 1 21) = "1e+21"
  /\ Number.toString (Number.of_decimal false 1 (-7)) = "1e-7"
  /\ Number.toString (Number.of_decimal false 9007199254740993 0) = "9007199254740992"
  /\ Number.toString (Number.of_decimal false 30000000000000004 (-17)) = "0.30000000000000004"
  /\ Number.toString (Number.of_decimal true 0 0) = "0"
  /\ Number.toString (Number.of_decimal false 5 (-324)) = "5e-324"
  /\ Number.toString (Number.of_decimal false 18 307) = "Infinity".
Proof. repeat apply conj; vm_compute; reflexivity. Qed.

Example JSON_parse_examples :
  JSON_parse "null" = Some JNull
  /\ JSON_parse (q " {'b' : [true, false], 'a' : 'x\ny', 'b' : null} ")
     = Some (JObj [("b", JNull); ("a", JStr ("x" +:+ str1 "010" +:+ "y"))])
  /\ JSON_parse (q "{'b':1,'10':2,'9':3}")
     = Some (JObj [("9", JNum (Number.of_decimal false 3 0));
                   ("10", JNum (Number.of_decimal false 2 0));
                   ("b", JNum (Number.of_decimal false 1 0))])
  /\ JSON_parse "01" = None
  /\ JSON_parse "[1,]" = None
  /\ JSON_parse (q "{'a':1") = None
  /\ JSON_parse "ballot" = None
  /\ JSON_parse EmptyString = None.
Proof. repeat apply conj; vm_compute; reflexivity. Qed.

Example JSON_stringify_example :
  JSON_stringify (JArr [JStr "ballot"; JNum (Number.of_decimal false 50 (-1));
                        JObj [("k", JArr [])]])
  = q "['ballot',5,{'k':[]}]".
Proof. vm_compute. reflexivity. Qed.

(** Surrogates.  The escapes of a pair denote one character, which is
    written back as it is, in four bytes; a surrogate on its own is written
    back as the escape of its code unit, also when it came in upper-case
    digits or next to a surrogate it does not pair with. *)
Example JSON_stringify_surrogates :
  (JSON_stringify <$> JSON_parse (q "'\ud83d\ude00'"))
  = Some (DQ +:+ String "240" (String "159" (String "152" (str1 "128"))) +:+ DQ)
  /\ (JSON_stringify <$> JSON_parse (q "'\ud800'")) = Some (q "'\ud800'")
  /\ (JSON_stringify <$> JSON_parse (q "'\uDC00\uD800'"))
     = Some (q "'\udc00\ud800'")
  /\ (JSON_stringify <$> JSON_parse (q "'\ud800\ud83d\ude00'"))
     = Some (q "'\ud800" +:+ String "240" (String "159" (String "152" (str1 "128")))
             +:+ DQ)
  /\ GetAllVotes {[ "k" := q "'\ud800'" ]}
     = (Returns (q "['\ud800']"), {[ "k" := q "'\ud800'" ]}).
Proof. repeat apply conj; vm_compute; reflexivity. Qed.

(** ** The parser's fuel *)

Lemma skip_ws_length (s : string) :
  (String.length (skip_ws s) <= String.length s)%nat.
Proof.
  induction s as [|c s IH]; simpl; [lia|].
  destruct (is_ws c); simpl; lia.
Qed.

Lemma skip_ws_cons (s r : string) (c : ascii) :
  skip_ws s = String c r -> (String.length r < String.length s)%nat.
Proof.
  intros H. pose proof (skip_ws_length s) as Hl. rewrite H in Hl. simpl in Hl. lia.
Qed.

Lemma prepend_Some (p : string) (x : option (string * string)) (t r : string) :
  prepend p x = Some (t, r) -> exists t', x = Some (t', r).
Proof. destruct x as [[t' r']|]; simpl; [|discriminate]. intros [= _ ->]. eauto. Qed.

(** Destructs the first scrutinee that can be named in hypothesis [H]. *)
Ltac break_match_in H :=
  match type of H with
  | context [match ?x with _ => _ end] => destruct x eqn:?; try discriminate H
  end.

Lemma parse_chars_length (n : nat) :
  forall s t r,
    (String.length s <= n)%nat -> parse_chars s = Some (t, r) ->
    (String.length r < String.length s)%nat.
Proof.
  induction n as [|n IH]; intros s t r Hn H.
  - destruct s; [discriminate H | simpl in Hn; lia].
  - destruct s as [|c s1]; [discriminate H|]. simpl in H.
    repeat break_match_in H;
      try (injection H as <- <-; simpl; lia);
      try (apply prepend_Some in H as [t' H]; apply IH in H; simpl in *; lia).
Qed.

Lemma take_digits_length (s d r : string) :
  take_digits s = (d, r) ->
  String.length s = (String.length d + String.length r)%nat.
Proof.
  revert d r. induction s as [|c s IH]; intros d r; simpl.
  - intros [= <- <-]. reflexivity.
  - destruct (is_digit c).
    + destruct (take_digits s) as [d' r'] eqn:E. intros [= <- <-].
      simpl. rewrite (IH d' r' eq_refl). reflexivity.
    + intros [= <- <-]. reflexivity.
Qed.

Lemma parse_fraction_length (s d r : string) :
  parse_fraction s = Some (d, r) -> (String.length r <= String.length s)%nat.
Proof.
  unfold parse_fraction. intros H.
  destruct s as [|c s]; [injection H as <- <-; simpl; lia|].
  destruct (Ascii.eqb c ".").
  - destruct (take_digits s) as [d' r'] eqn:E.
    apply take_digits_length in E.
    destruct d'; [discriminate|]. injection H as <- <-. simpl in *. lia.
  - injection H as <- <-. simpl. lia.
Qed.

Lemma parse_exponent_length (s r : string) (e : Z) :
  parse_exponent s = Some (e, r) -> (String.length r <= String.length s)%nat.
Proof.
  unfold parse_exponent. intros H.
  destruct s as [|c s]; [injection H as <- <-; simpl; lia|].
  destruct (Ascii.eqb c "e" || Ascii.eqb c "E").
  - destruct (match s with
              | EmptyString => (false, s)
              | String sign t => _
              end) as [neg s''] eqn:Esign.
    assert (String.length s'' <= String.length s)%nat as Hs''.
    { destruct s as [|sign t]; [injection Esign as <- <-; simpl; lia|].
      destruct (Ascii.eqb sign "-"); [injection Esign as <- <-; simpl; lia|].
      destruct (Ascii.eqb sign "+"); injection Esign as <- <-; simpl; lia. }
    destruct (take_digits s'') as [d' r'] eqn:E.
    apply take_digits_length in E.
    destruct d'; [discriminate|]. injection H as <- <-. simpl in *. lia.
  - injection H as <- <-. simpl. lia.
Qed.

Lemma parse_number_length (s r : string) (n : Number.t) :
  parse_number s = Some (n, r) -> (String.length r < String.length s)%nat.
Proof.
  unfold parse_number. intros H.
  destruct (match s with
            | EmptyString => (false, s)
            | String sign t => _
            end) as [neg s1] eqn:Esign.
  assert (String.length s1 <= String.length s)%nat as Hs1.
  { destruct s as [|sign t]; [injection Esign as <- <-; simpl; lia|].
    destruct (Ascii.eqb sign "-"); injection Esign as <- <-; simpl; lia. }
  destruct (take_digits s1) as [int s2] eqn:E. apply take_digits_length in E.
  destruct int as [|d ds]; [discriminate|].
  destruct (Ascii.eqb d "0" && negb (String.eqb ds EmptyString)); [discriminate|].
  destruct (parse_fraction s2) as [[frac s3]|] eqn:Ef; [|discriminate].
  apply parse_fraction_length in Ef.
  destruct (parse_exponent s3) as [[e s4]|] eqn:Ee; [|discriminate].
  apply parse_exponent_length in Ee.
  injection H as <- <-. simpl in *. lia.
Qed.

Lemma strip_prefix_length (p s r : string) :
  strip_prefix p s = Some r -> (String.length r <= String.length s)%nat.
Proof.
  revert s. induction p as [|a p IH]; intros [|b s]; simpl;
    try discriminate; try (intros [= <-]; simpl; lia).
  destruct (Ascii.eqb a b); [|discriminate].
  intros H. apply IH in H. lia.
Qed.

Lemma parse_literal_length (word s r : string) (v v' : json) :
  parse_literal word v s = Some (v', r) ->
  (String.length r <= String.length s)%nat.
Proof.
  unfold parse_literal. destruct (strip_prefix word s) as [r'|] eqn:E; [|discriminate].
  intros [= _ <-]. by apply strip_prefix_length in E.
Qed.

(** Every successful parse consumes input. *)
Lemma parse_consumes (fuel : nat) :
  (forall s v r, parse_value fuel s = Some (v, r) ->
                 (String.length r < String.length s)%nat)
  /\ (forall s acc v r, parse_elements fuel s acc = Some (v, r) ->
                        (String.length r < String.length s)%nat)
  /\ (forall s acc v r, parse_members fuel s acc = Some (v, r) ->
                        (String.length r < String.length s)%nat).
Proof.
  induction fuel as [|fuel (IHv & IHe & IHm)];
    [repeat split; intros; discriminate|].
  split; [|split].
  - intros s v r H. simpl in H.
    destruct (skip_ws s) as [|c s1] eqn:Es; [discriminate|].
    apply skip_ws_cons in Es.
    destruct (Ascii.eqb c "{").
    { destruct (skip_ws s1) as [|c' s2] eqn:Es1; [discriminate|].
      apply skip_ws_cons in Es1.
      destruct (Ascii.eqb c' "}"); [injection H as <- <-; lia|].
      apply IHm in H. lia. }
    destruct (Ascii.eqb c "[").
    { destruct (skip_ws s1) as [|c' s2] eqn:Es1; [discriminate|].
      apply skip_ws_cons in Es1.
      destruct (Ascii.eqb c' "]"); [injection H as <- <-; lia|].
      apply IHe in H. lia. }
    destruct (Ascii.eqb c dquote).
    { destruct (parse_chars s1) as [[str r']|] eqn:Ec; [|discriminate].
      injection H as <- <-.
      apply (parse_chars_length _ _ _ _ (Nat.le_refl _)) in Ec. lia. }
    destruct (Ascii.eqb c "t"); [apply parse_literal_length in H; lia|].
    destruct (Ascii.eqb c "f"); [apply parse_literal_length in H; lia|].
    destruct (Ascii.eqb c "n"); [apply parse_literal_length in H; lia|].
    destruct (parse_number (String c s1)) as [[n r']|] eqn:En; [|discriminate].
    injection H as <- <-. apply parse_number_length in En. simpl in En. lia.
  - intros s acc v r H. simpl in H.
    destruct (parse_value fuel s) as [[v1 r1]|] eqn:Ev; [|discriminate].
    apply IHv in Ev.
    destruct (skip_ws r1) as [|c r2] eqn:Es; [discriminate|].
    apply skip_ws_cons in Es.
    destruct (Ascii.eqb c ","); [apply IHe in H; lia|].
    destruct (Ascii.eqb c "]"); [|discriminate].
    injection H as <- <-. lia.
  - intros s acc v r H. simpl in H.
    destruct (skip_ws s) as [|c s1] eqn:Es; [discriminate|].
    apply skip_ws_cons in Es.
    destruct (Ascii.eqb c dquote); [|discriminate].
    destruct (parse_chars s1) as [[k r1]|] eqn:Ec; [|discriminate].
    apply (parse_chars_length _ _ _ _ (Nat.le_refl _)) in Ec.
    destruct (skip_ws r1) as [|c1 r2] eqn:Es1; [discriminate|].
    apply skip_ws_cons in Es1.
    destruct (Ascii.eqb c1 ":"); [|discriminate].
    destruct (parse_value fuel r2) as [[v1 r3]|] eqn:Ev; [|discriminate].
    apply IHv in Ev.
    destruct (skip_ws r3) as [|c2 r4] eqn:Es3; [discriminate|].
    apply skip_ws_cons in Es3.
    destruct (Ascii.eqb c2 ","); [apply IHm in H; lia|].
    destruct (Ascii.eqb c2 "}"); [|discriminate].
    injection H as <- <-. lia.
Qed.

(** Beyond twice the length of the input, the fuel does not matter. *)
Lemma parse_fuel (n : nat) :
  forall s, (String.length s <= n)%nat ->
    (forall f1 f2,
        (2 * String.length s + 2 <= f1)%nat -> (2 * String.length s + 2 <= f2)%nat ->
        parse_value f1 s = parse_value f2 s)
    /\ (forall f1 f2 acc,
           (2 * String.length s + 3 <= f1)%nat -> (2 * String.length s + 3 <= f2)%nat ->
           parse_elements f1 s acc = parse_elements f2 s acc)
    /\ (forall f1 f2 acc,
           (2 * String.length s + 3 <= f1)%nat -> (2 * String.length s + 3 <= f2)%nat ->
           parse_members f1 s acc = parse_members f2 s acc).
Proof.
  induction n as [n IH] using lt_wf_ind. intros s Hn.
  assert (Hvalue : forall f1 f2,
             (2 * String.length s + 2 <= f1)%nat -> (2 * String.length s + 2 <= f2)%nat ->
             parse_value f1 s = parse_value f2 s).
  { intros [|a] [|b] Ha Hb; try lia. simpl.
    destruct (skip_ws s) as [|c s1] eqn:Es; [reflexivity|].
    apply skip_ws_cons in Es.
    destruct (Ascii.eqb c "{").
    { destruct (skip_ws s1) as [|c' s2] eqn:Es1; [reflexivity|].
      destruct (Ascii.eqb c' "}"); [reflexivity|].
      apply (IH (String.length s1)); lia. }
    destruct (Ascii.eqb c "[").
    { destruct (skip_ws s1) as [|c' s2] eqn:Es1; [reflexivity|].
      destruct (Ascii.eqb c' "]"); [reflexivity|].
      apply (IH (String.length s1)); lia. }
    reflexivity. }
  split; [exact Hvalue|]. split.
  - intros [|a] [|b] acc Ha Hb; try lia. simpl.
    rewrite (Hvalue a b) by lia.
    destruct (parse_value b s) as [[v1 r1]|] eqn:Ev; [|reflexivity].
    apply (proj1 (parse_consumes b)) in Ev.
    destruct (skip_ws r1) as [|c r2] eqn:Es; [reflexivity|].
    apply skip_ws_cons in Es.
    destruct (Ascii.eqb c ","); [|reflexivity].
    apply (IH (String.length r2)); lia.
  - intros [|a] [|b] acc Ha Hb; try lia. simpl.
    destruct (skip_ws s) as [|c s1] eqn:Es; [reflexivity|].
    apply skip_ws_cons in Es.
    destruct (Ascii.eqb c dquote); [|reflexivity].
    destruct (parse_chars s1) as [[k r1]|] eqn:Ec; [|reflexivity].
    apply (parse_chars_length _ _ _ _ (Nat.le_refl _)) in Ec.
    destruct (skip_ws r1) as [|c1 r2] eqn:Es1; [reflexivity|].
    apply skip_ws_cons in Es1.
    destruct (Ascii.eqb c1 ":"); [|reflexivity].
    assert (Hv : parse_value a r2 = parse_value b r2)
      by (apply (IH (String.length r2)); lia).
    rewrite Hv.
    destruct (parse_value b r2) as [[v1 r3]|] eqn:Ev; [|reflexivity].
    apply (proj1 (parse_consumes b)) in Ev.
    destruct (skip_ws r3) as [|c2 r4] eqn:Es3; [reflexivity|].
    apply skip_ws_cons in Es3.
    destruct (Ascii.eqb c2 ","); [|reflexivity].
    apply (IH (String.length r4)); lia.
Qed.

(** The fuel [JSON_parse] gives is enough: more of it changes nothing. *)
Theorem JSON_parse_fuel (text : string) (fuel : nat) :
  (2 * String.length text + 2 <= fuel)%nat ->
  parse_value fuel text = parse_value (2 * String.length text + 2) text.
Proof.
  intros H. apply (parse_fuel (String.length text)); lia.
Qed.

(** ** The World State and its iterator *)

#[global] Instance key_le_total {A : Type} : Total (@key_le A).
Proof. intros a b. unfold key_le. apply (total String.le). Qed.

#[global] Instance key_le_trans {A : Type} : Transitive (@key_le A).
Proof. intros a b c. unfold key_le. apply (transitivity (R := String.le)). Qed.

Lemma key_le_antisym {A : Type} (a b : string * A) :
  key_le a b -> key_le b a -> a.1 = b.1.
Proof. unfold key_le. apply (anti_symm String.le). Qed.

Lemma entries_Permutation (σ : gmap string string) :
  entries σ ≡ₚ map_to_list σ.
Proof. apply merge_sort_Permutation. Qed.

Lemma elem_of_entries (σ : gmap string string) (k v : string) :
  (k, v) ∈ entries σ <-> σ !! k = Some v.
Proof. rewrite entries_Permutation. apply elem_of_map_to_list. Qed.

Lemma entries_Sorted (σ : gmap string string) : Sorted key_le (entries σ).
Proof. apply (Sorted_merge_sort key_le). Qed.

Lemma entries_NoDup (σ : gmap string string) : NoDup (entries σ).*1.
Proof. rewrite entries_Permutation. apply NoDup_fst_map_to_list. Qed.

Lemma entries_length (σ : gmap string string) : length (entries σ) = size σ.
Proof. rewrite entries_Permutation. apply length_map_to_list. Qed.

Lemma entries_empty : entries ∅ = [].
Proof. unfold entries. rewrite map_to_list_empty. reflexivity. Qed.

(** The range with both bounds empty is the whole state. *)
Lemma getStateByRange_full (σ : gmap string string) :
  getStateByRange EmptyString EmptyString σ = (Returns (entries σ), σ).
Proof.
  unfold getStateByRange. do 2 f_equal.
  induction (entries σ) as [|[k v] l IH]; simpl; [reflexivity|].
  rewrite IH. by destruct k.
Qed.

(** Unfolding a transaction step by step. *)
Ltac tx_unfold :=
  unfold mbind, mret, Tx_bind, Tx_ret, throw, getState, putState, deleteState;
  rewrite ?getStateByRange_full.

Lemma length_pos_nonempty (s : string) :
  s <> EmptyString -> (0 <? String.length s)%nat = true.
Proof. destruct s; [congruence | reflexivity]. Qed.

Lemma VoteExists_absent (σ : gmap string string) (v : string) :
  σ !! v = None -> VoteExists v σ = (Returns false, σ).
Proof. intros H. unfold VoteExists. tx_unfold. rewrite H. reflexivity. Qed.

Lemma VoteExists_present (σ : gmap string string) (v value : string) :
  σ !! v = Some value -> value <> EmptyString ->
  VoteExists v σ = (Returns true, σ).
Proof.
  intros H Hne. unfold VoteExists. tx_unfold. rewrite H. simpl.
  rewrite (length_pos_nonempty _ Hne). reflexivity.
Qed.

(** ** Guards of the single-record operations *)

(** C5. Registering a voter whose key holds a non-empty value throws the
    already-exists error, and no write has been issued: the World State is
    the one the transaction started from. *)
Theorem RegisterVote_present (σ : gmap string string) (v c s value : string) :
  σ !! v = Some value -> value <> EmptyString ->
  RegisterVote v c s σ = (Throws (AlreadyExists v), σ).
Proof.
  intros H Hne. unfold RegisterVote.
  unfold mbind at 1. unfold Tx_bind.
  rewrite (VoteExists_present σ v value H Hne). reflexivity.
Qed.

Lemma RegisterVote_present_witness :
  RegisterVote "v1" "cB" "s2" {[ "v1" := "ballot" ]}
  = (Throws (Error "The vote from voter v1 already exists"), {[ "v1" := "ballot" ]}).
Proof.
  apply (RegisterVote_present {[ "v1" := "ballot" ]} "v1" "cB" "s2" "ballot").
  - reflexivity.
  - discriminate.
Defined.

(** C6. On a key absent from the World State, reading, updating and
    deleting each throw the does-not-exist error and issue no write. *)
Theorem absent_NotFound (σ : gmap string string) (v c s : string) :
  σ !! v = None ->
  ReadVote v σ = (Throws (NotFound v), σ)
  /\ UpdateVote v c s σ = (Throws (NotFound v), σ)
  /\ DeleteVote v σ = (Throws (NotFound v), σ).
Proof.
  intros H. repeat split.
  - unfold ReadVote. tx_unfold. rewrite H. reflexivity.
  - unfold UpdateVote. unfold mbind at 1. unfold Tx_bind.
    rewrite (VoteExists_absent σ v H). reflexivity.
  - unfold DeleteVote. unfold mbind at 1. unfold Tx_bind.
    rewrite (VoteExists_absent σ v H). reflexivity.
Qed.

Lemma absent_NotFound_witness :
  ReadVote "v9" {[ "v1" := "ballot" ]}
  = (Throws (Error "The vote from voter v9 does not exist"), {[ "v1" := "ballot" ]})
  /\ UpdateVote "v9" "cA" "s1" {[ "v1" := "ballot" ]}
     = (Throws (Error "The vote from voter v9 does not exist"), {[ "v1" := "ballot" ]})
  /\ DeleteVote "v9" {[ "v1" := "ballot" ]}
     = (Throws (Error "The vote from voter v9 does not exist"), {[ "v1" := "ballot" ]}).
Proof.
  apply (absent_NotFound {[ "v1" := "ballot" ]} "v9" "cA" "s1").
  reflexivity.
Defined.

(** ** The canonical encoding of a vote *)

#[local] Arguments String.append : simpl nomatch.

Lemma append_assoc (a b c : string) : (a +:+ b) +:+ c = a +:+ (b +:+ c).
Proof. induction a as [|x a IH]; simpl; [reflexivity | by rewrite IH]. Qed.

Lemma append_nil_r (a : string) : a +:+ EmptyString = a.
Proof. induction a as [|x a IH]; simpl; [reflexivity | by rewrite IH]. Qed.

Lemma length_append (a b : string) :
  String.length (a +:+ b) = (String.length a + String.length b)%nat.
Proof. induction a as [|x a IH]; simpl; [reflexivity | by rewrite IH]. Qed.

Lemma encode_Vote (v c s : string) :
  encode (Vote_object {| VoterID := v; CandidateID := c; Station := s |})
  = Vote_text v c s.
Proof.
  cbv -[escape String.append]. rewrite !append_assoc. reflexivity.
Qed.

Lemma Vote_text_nonempty (v c s : string) : Vote_text v c s <> EmptyString.
Proof. discriminate. Qed.

(** Reading back an escaped character, then an escaped string up to its
    closing quote. *)
Lemma parse_escape_char (c : ascii) (t : string) :
  parse_chars (escape_char c +:+ t) = prepend (str1 c) (parse_chars t).
Proof. destruct c as [[] [] [] [] [] [] [] []]; reflexivity. Qed.

(** The escape of a code unit reads back as that code unit. *)
Lemma hex_value_hex_digit (d : nat) :
  (d < 16)%nat -> hex_value (hex_digit (N.of_nat d)) = Some (N.of_nat d).
Proof.
  intros H. do 16 (destruct d as [|d]; [reflexivity|]). lia.
Qed.

Lemma hex4_value_hex4 (n : N) :
  (n < 65536)%N ->
  exists h1 h2 h3 h4,
    hex4 n = String h1 (String h2 (String h3 (String h4 EmptyString)))
    /\ hex4_value h1 h2 h3 h4 = Some n.
Proof.
  intros H. eexists _, _, _, _. split; [reflexivity|].
  unfold hex4_value.
  assert (D : forall d, (d < 16)%N -> hex_value (hex_digit d) = Some d).
  { intros d Hd. rewrite <- (N2Nat.id d). apply hex_value_hex_digit. lia. }
  rewrite !D by (apply N.mod_lt; discriminate).
  f_equal.
  zify. Z.to_euclidean_division_equations. lia.
Qed.

(** The three bytes of a surrogate are the UTF-8 form of its code unit. *)
Lemma surrogate_inv (b1 b2 b3 : ascii) (n : N) :
  surrogate b1 b2 b3 = Some n ->
  b1 = "237"%char
  /\ (128 <= N_of_ascii b2)%N /\ (128 <= N_of_ascii b3)%N
  /\ (55296 <= n < 57344)%N
  /\ utf8 n = String b1 (String b2 (str1 b3)).
Proof.
  unfold surrogate.
  destruct (Ascii.eqb b1 "237") eqn:E1; [|discriminate].
  destruct (160 <=? N_of_ascii b2)%N eqn:E2; [|discriminate].
  destruct (N_of_ascii b2 <? 192)%N eqn:E3; [|discriminate].
  destruct (128 <=? N_of_ascii b3)%N eqn:E4; [|discriminate].
  destruct (N_of_ascii b3 <? 192)%N eqn:E5; [|discriminate].
  simpl. intros [= <-].
  apply Ascii.eqb_eq in E1. apply N.leb_le in E2, E4. apply N.ltb_lt in E3, E5.
  split; [exact E1|]. split; [lia|]. split; [lia|]. split; [lia|].
  set (n := (53248 + (N_of_ascii b2 - 128) * 64 + (N_of_ascii b3 - 128))%N).
  unfold utf8.
  assert (H1 : (n <? 128)%N = false) by (apply N.ltb_ge; unfold n; lia).
  assert (H2 : (n <? 2048)%N = false) by (apply N.ltb_ge; unfold n; lia).
  assert (H3 : (n <? 65536)%N = true) by (apply N.ltb_lt; unfold n; lia).
  rewrite H1, H2, H3.
  assert (A1 : (224 + n / 4096 = 237)%N).
  { unfold n. zify. Z.to_euclidean_division_equations. lia. }
  assert (A2 : (128 + n / 64 mod 64 = N_of_ascii b2)%N).
  { unfold n. zify. Z.to_euclidean_division_equations. lia. }
  assert (A3 : (128 + n mod 64 = N_of_ascii b3)%N).
  { unfold n. zify. Z.to_euclidean_division_equations. lia. }
  rewrite A1, A2, A3, !ascii_N_embedding, E1. reflexivity.
Qed.

Lemma parse_chars_raw (c : ascii) (t : string) :
  (128 <= N_of_ascii c)%N ->
  parse_chars (String c t) = prepend (str1 c) (parse_chars t).
Proof.
  intros H. cbn [parse_chars].
  destruct (Ascii.eqb c dquote) eqn:E1.
  { apply Ascii.eqb_eq in E1. subst c. vm_compute in H. contradiction. }
  destruct (Ascii.eqb c backslash) eqn:E2.
  { apply Ascii.eqb_eq in E2. subst c. vm_compute in H. contradiction. }
  destruct (N_of_ascii c <? 32)%N eqn:E3; [|reflexivity].
  apply N.ltb_lt in E3. lia.
Qed.

(** A [\u] escape denotes its code unit, unless that is a high surrogate
    and the escape of a low one follows. *)
Lemma parse_chars_u (h1 h2 h3 h4 : ascii) (n : N) (s3 : string) :
  hex4_value h1 h2 h3 h4 = Some n ->
  (is_high_surrogate n = true -> no_low_escape s3 = true) ->
  parse_chars (String backslash (String "u"
                 (String h1 (String h2 (String h3 (String h4 s3))))))
  = prepend (utf8 n) (parse_chars s3).
Proof.
  intros Hn Hlone.
  change (parse_chars (String backslash (String "u"
                 (String h1 (String h2 (String h3 (String h4 s3)))))))
    with (match hex4_value h1 h2 h3 h4 with
          | Some hi =>
              if is_high_surrogate hi then
                match s3 with
                | String b (String u (String l1 (String l2
                    (String l3 (String l4 s4))))) =>
                    match surrogate_pair b u l1 l2 l3 l4 with
                    | Some lo =>
                        prepend (utf8 (code_point hi lo)) (parse_chars s4)
                    | None => prepend (utf8 hi) (parse_chars s3)
                    end
                | _ => prepend (utf8 hi) (parse_chars s3)
                end
              else prepend (utf8 hi) (parse_chars s3)
          | None => None
          end).
  rewrite Hn. destruct (is_high_surrogate n); [|reflexivity].
  specialize (Hlone eq_refl).
  destruct s3 as [|b [|u [|l1 [|l2 [|l3 [|l4 s4]]]]]]; try reflexivity.
  unfold no_low_escape in Hlone.
  destruct (surrogate_pair b u l1 l2 l3 l4); [discriminate | reflexivity].
Qed.

Lemma no_low_escape_escape_char (c : ascii) (r : string) :
  no_low_escape (escape_char c +:+ r) = true.
Proof.
  destruct r as [|r1 [|r2 [|r3 [|r4 [|r5 r]]]]];
    destruct c as [[] [] [] [] [] [] [] []]; reflexivity.
Qed.

Lemma escape_cons3 (c c2 c3 : ascii) (s3 : string) :
  escape (String c (String c2 (String c3 s3)))
  = match surrogate c c2 c3 with
    | Some n =>
        match s3 with
        | String d1 (String d2 (String d3 s6)) =>
            if is_high_surrogate n && is_low_triple d1 d2 d3 then
              String c (String c2 (String c3
                (String d1 (String d2 (String d3 (escape s6))))))
            else "\u" +:+ hex4 n +:+ escape s3
        | _ => "\u" +:+ hex4 n +:+ escape s3
        end
    | None => escape_char c +:+ escape (String c2 (String c3 s3))
    end.
Proof. reflexivity. Qed.

Lemma escape_lone (c c2 c3 : ascii) (s3 : string) (n : N) :
  surrogate c c2 c3 = Some n ->
  is_high_surrogate n && low_follows s3 = false ->
  escape (String c (String c2 (String c3 s3))) = "\u" +:+ hex4 n +:+ escape s3.
Proof.
  intros Hs Hl. rewrite escape_cons3, Hs.
  destruct s3 as [|d1 [|d2 [|d3 s6]]]; try reflexivity.
  unfold low_follows in Hl. rewrite Hl. reflexivity.
Qed.

Lemma no_low_escape_u (n : N) (r : string) :
  (n < 65536)%N -> is_low_surrogate n = false ->
  no_low_escape ("\u" +:+ hex4 n +:+ r) = true.
Proof.
  intros Hn Hlow. destruct (hex4_value_hex4 n Hn) as (h1 & h2 & h3 & h4 & -> & Hv).
  simpl. unfold surrogate_pair. simpl. rewrite Hv.
  unfold is_low_surrogate in Hlow. rewrite Hlow. reflexivity.
Qed.

Lemma no_low_escape_quote (t : string) : no_low_escape (String dquote t) = true.
Proof. destruct t as [|r1 [|r2 [|r3 [|r4 [|r5 r]]]]]; reflexivity. Qed.

(** What [escape] writes opens with the escape of a low surrogate only if
    the string opens with a low surrogate. *)
Lemma no_low_escape_escape (s t : string) :
  low_follows s = false -> no_low_escape (escape s +:+ String dquote t) = true.
Proof.
  intros Hl. destruct s as [|c [|c2 [|c3 s3]]].
  - apply no_low_escape_quote.
  - change (escape (String c EmptyString)) with (escape_char c +:+ EmptyString).
    rewrite append_assoc. apply no_low_escape_escape_char.
  - change (escape (String c (String c2 EmptyString)))
      with (escape_char c +:+ escape (String c2 EmptyString)).
    rewrite append_assoc. apply no_low_escape_escape_char.
  - unfold low_follows, is_low_triple in Hl.
    destruct (surrogate c c2 c3) as [n|] eqn:Hs.
    + destruct (surrogate_inv _ _ _ _ Hs) as (-> & _ & _ & Hn & _).
      destruct (is_high_surrogate n && low_follows s3) eqn:Hp.
      * rewrite escape_cons3, Hs.
        destruct s3 as [|d1 [|d2 [|d3 s6]]];
          try (rewrite andb_false_r in Hp; discriminate).
        unfold low_follows in Hp. rewrite Hp. reflexivity.
      * rewrite (escape_lone _ _ _ _ _ Hs Hp), !append_assoc.
        apply no_low_escape_u; [lia | exact Hl].
    + rewrite escape_cons3, Hs, append_assoc. apply no_low_escape_escape_char.
Qed.

Lemma append_cons (c : ascii) (a b : string) :
  String c a +:+ b = String c (a +:+ b).
Proof. reflexivity. Qed.

Lemma u_escape (h1 h2 h3 h4 : ascii) (r : string) :
  "\u" +:+ String h1 (String h2 (String h3 (String h4 EmptyString))) +:+ r
  = String backslash (String "u"
      (String h1 (String h2 (String h3 (String h4 r))))).
Proof. reflexivity. Qed.

(** Reading back an escaped string: by induction on a bound of its length,
    since a surrogate takes three characters at a time and a pair six. *)
Lemma parse_escape_le (n : nat) (s t : string) :
  (String.length s <= n)%nat ->
  parse_chars (escape s +:+ String dquote t) = Some (s, t).
Proof.
  revert s. induction n as [|n IH]; intros s Hlen.
  { destruct s; [reflexivity | simpl in Hlen; lia]. }
  destruct s as [|c [|c2 [|c3 s3]]].
  - reflexivity.
  - change (escape (String c EmptyString)) with (escape_char c +:+ EmptyString).
    rewrite append_assoc, parse_escape_char. reflexivity.
  - change (escape (String c (String c2 EmptyString)))
      with (escape_char c +:+ escape (String c2 EmptyString)).
    rewrite append_assoc, parse_escape_char, IH by (simpl in *; lia).
    reflexivity.
  - destruct (surrogate c c2 c3) as [hi|] eqn:Hs.
    + destruct (surrogate_inv _ _ _ _ Hs) as (Hc & Hc2 & Hc3 & Hn & Hutf).
      destruct (is_high_surrogate hi && low_follows s3) eqn:Hp.
      * rewrite escape_cons3, Hs.
        destruct s3 as [|d1 [|d2 [|d3 s6]]];
          try (rewrite andb_false_r in Hp; discriminate).
        unfold low_follows in Hp. rewrite Hp.
        apply andb_prop in Hp as [_ Hlow]. unfold is_low_triple in Hlow.
        destruct (surrogate d1 d2 d3) as [lo|] eqn:Hd; [|discriminate].
        destruct (surrogate_inv _ _ _ _ Hd) as (Hd1 & Hd2 & Hd3 & _ & _).
        assert (H1 : (128 <= N_of_ascii c)%N) by (subst c; vm_compute; discriminate).
        assert (H4 : (128 <= N_of_ascii d1)%N) by (subst d1; vm_compute; discriminate).
        rewrite !append_cons.
        rewrite !parse_chars_raw by assumption.
        rewrite IH by (simpl in *; lia). reflexivity.
      * rewrite (escape_lone _ _ _ _ _ Hs Hp), !append_assoc.
        destruct (hex4_value_hex4 hi) as (h1 & h2 & h3 & h4 & -> & Hv); [lia|].
        rewrite u_escape.
        rewrite (parse_chars_u _ _ _ _ hi _ Hv).
        -- rewrite IH by (simpl in *; lia). rewrite Hutf. reflexivity.
        -- intros Hhigh. rewrite Hhigh in Hp. simpl in Hp.
           apply no_low_escape_escape, Hp.
    + rewrite escape_cons3, Hs, append_assoc, parse_escape_char,
        IH by (simpl in *; lia).
      reflexivity.
Qed.

Lemma parse_escape (s t : string) :
  parse_chars (escape s +:+ String dquote t) = Some (s, t).
Proof. apply (parse_escape_le (String.length s)). lia. Qed.

Lemma parse_Vote_text (fuel : nat) (v c s rest : string) :
  parse_value (5 + fuel) (Vote_text v c s +:+ rest)
  = Some (Vote_parsed v c s, rest).
Proof.
  unfold Vote_text. rewrite !append_assoc.
  simpl; rewrite parse_escape; simpl; rewrite parse_escape;
    simpl; rewrite parse_escape.
  reflexivity.
Qed.

(** [JSON.parse] inverts the encoding of a vote, whatever the three
    strings hold. *)
Lemma JSON_parse_Vote_text (v c s : string) :
  JSON_parse (Vote_text v c s) = Some (Vote_parsed v c s).
Proof.
  unfold JSON_parse.
  assert (Hfuel : exists fuel,
             (2 * String.length (Vote_text v c s) + 2 = 5 + fuel)%nat).
  { exists (2 * String.length (Vote_text v c s) - 3)%nat.
    unfold Vote_text. rewrite length_append. simpl. lia. }
  destruct Hfuel as [fuel ->].
  pose proof (parse_Vote_text fuel v c s EmptyString) as H.
  rewrite append_nil_r in H. rewrite H. reflexivity.
Qed.

Lemma ReadVote_present (σ : gmap string string) (v value : string) :
  σ !! v = Some value -> value <> EmptyString ->
  ReadVote v σ = (Returns value, σ).
Proof.
  intros H Hne. unfold ReadVote. tx_unfold. rewrite H. simpl.
  destruct value; [congruence | reflexivity].
Qed.

(** ** Register, update, initialise *)

(** C4. A voter whose key is absent does not exist for [VoteExists];
    registering it returns, having written the encoded vote under the key;
    afterwards the voter exists and [ReadVote] returns text that parses to
    the object with exactly the three fields given. *)
Theorem RegisterVote_absent (σ : gmap string string) (v c s : string) :
  σ !! v = None ->
  let vote := {| VoterID := v; CandidateID := c; Station := s |} in
  let σ' := <[v := encode (Vote_object vote)]> σ in
  VoteExists v σ = (Returns false, σ)
  /\ RegisterVote v c s σ = (Returns tt, σ')
  /\ VoteExists v σ' = (Returns true, σ')
  /\ exists text,
       ReadVote v σ' = (Returns text, σ')
       /\ JSON_parse text
          = Some (JObj [("CandidateID", JStr c); ("Station", JStr s);
                        ("VoterID", JStr v)]).
Proof.
  intros H vote σ'.
  assert (Hσ' : σ' !! v = Some (Vote_text v c s)).
  { unfold σ', vote. rewrite encode_Vote. apply lookup_insert_eq. }
  split; [apply VoteExists_absent, H|].
  split.
  { unfold RegisterVote. unfold mbind at 1. unfold Tx_bind.
    rewrite (VoteExists_absent σ v H). reflexivity. }
  split.
  { apply (VoteExists_present σ' v _ Hσ'), Vote_text_nonempty. }
  exists (Vote_text v c s). split.
  - apply (ReadVote_present σ' v _ Hσ'), Vote_text_nonempty.
  - apply JSON_parse_Vote_text.
Qed.

Lemma RegisterVote_absent_witness :
  let σ' : gmap string string :=
    {[ "v1" := q "{'CandidateID':'cA','Station':'s1','VoterID':'v1'}" ]} in
  VoteExists "v1" ∅ = (Returns false, ∅)
  /\ RegisterVote "v1" "cA" "s1" ∅ = (Returns tt, σ')
  /\ VoteExists "v1" σ' = (Returns true, σ')
  /\ exists text,
       ReadVote "v1" σ' = (Returns text, σ')
       /\ JSON_parse text
          = Some (JObj [("CandidateID", JStr "cA"); ("Station", JStr "s1");
                        ("VoterID", JStr "v1")]).
Proof.
  apply (RegisterVote_absent ∅ "v1" "cA" "s1").
  reflexivity.
Defined.

(** C7. Updating a voter whose key holds a non-empty value, whatever that
    value is, returns and leaves under the key the encoding of the new
    vote alone: the voter still exists and [ReadVote] returns text that
    parses to the object with the voter and the two new fields. *)
Theorem UpdateVote_present (σ : gmap string string) (v c2 s2 old : string) :
  σ !! v = Some old -> old <> EmptyString ->
  let updatedVote := {| VoterID := v; CandidateID := c2; Station := s2 |} in
  let σ' := <[v := encode (Vote_object updatedVote)]> σ in
  UpdateVote v c2 s2 σ = (Returns tt, σ')
  /\ VoteExists v σ' = (Returns true, σ')
  /\ exists text,
       ReadVote v σ' = (Returns text, σ')
       /\ JSON_parse text
          = Some (JObj [("CandidateID", JStr c2); ("Station", JStr s2);
                        ("VoterID", JStr v)]).
Proof.
  intros H Hne vote σ'.
  assert (Hσ' : σ' !! v = Some (Vote_text v c2 s2)).
  { unfold σ', vote. rewrite encode_Vote. apply lookup_insert_eq. }
  split.
  { unfold UpdateVote. unfold mbind at 1. unfold Tx_bind.
    rewrite (VoteExists_present σ v old H Hne). reflexivity. }
  split.
  { apply (VoteExists_present σ' v _ Hσ'), Vote_text_nonempty. }
  exists (Vote_text v c2 s2). split.
  - apply (ReadVote_present σ' v _ Hσ'), Vote_text_nonempty.
  - apply JSON_parse_Vote_text.
Qed.

Lemma UpdateVote_present_witness :
  let σ : gmap string string :=
    {[ "v1" := q "{'CandidateID':'cA','Station':'s1','VoterID':'v1'}" ]} in
  let σ' : gmap string string :=
    <[ "v1" := q "{'CandidateID':'cB','Station':'s2','VoterID':'v1'}" ]> σ in
  UpdateVote "v1" "cB" "s2" σ = (Returns tt, σ')
  /\ VoteExists "v1" σ' = (Returns true, σ')
  /\ exists text,
       ReadVote "v1" σ' = (Returns text, σ')
       /\ JSON_parse text
          = Some (JObj [("CandidateID", JStr "cB"); ("Station", JStr "s2");
                        ("VoterID", JStr "v1")]).
Proof.
  apply (UpdateVote_present
           {[ "v1" := q "{'CandidateID':'cA','Station':'s1','VoterID':'v1'}" ]}
           "v1" "cB" "s2"
           (q "{'CandidateID':'cA','Station':'s1','VoterID':'v1'}")).
  - reflexivity.
  - discriminate.
Defined.

(** C10. [InitLedger] never reads: on every World State it returns, having
    put the canonical encodings of its two votes under [voter1] and
    [voter2], over whatever was there, and nothing else. *)
Theorem InitLedger_writes (σ : gmap string string) :
  let vote1 :=
    {| VoterID := "voter1"; CandidateID := "candidate1"; Station := "station1" |} in
  let vote2 :=
    {| VoterID := "voter2"; CandidateID := "candidate2"; Station := "station2" |} in
  let σ' := <["voter2" := encode (Vote_object vote2)]>
              (<["voter1" := encode (Vote_object vote1)]> σ) in
  InitLedger σ = (Returns tt, σ')
  /\ σ' !! "voter1"
     = Some (q "{'CandidateID':'candidate1','Station':'station1','VoterID':'voter1'}")
  /\ σ' !! "voter2"
     = Some (q "{'CandidateID':'candidate2','Station':'station2','VoterID':'voter2'}")
  /\ forall k, k <> "voter1" -> k <> "voter2" -> σ' !! k = σ !! k.
Proof.
  intros vote1 vote2 σ'. split; [reflexivity|].
  split; [|split].
  - unfold σ'. rewrite lookup_insert_ne by discriminate. apply lookup_insert_eq.
  - apply lookup_insert_eq.
  - intros k H1 H2. unfold σ'.
    rewrite lookup_insert_ne by (intros E; subst k; contradiction).
    apply lookup_insert_ne. intros E; subst k; contradiction.
Qed.

(** ** Scanning and emptying the whole store *)

Lemma decode_Record_parsed_or_raw (text : string) (vote : Vote) :
  decode_Record text = Some vote ->
  same_fields (parsed_or_raw text) (Vote_object vote) = true.
Proof.
  unfold decode_Record, parsed_or_raw.
  destruct (JSON_parse text) as [[| | | | |o]|]; try discriminate.
  destruct (own_property "VoterID" o) as [[| | |v| |]|]; try discriminate.
  destruct (own_property "CandidateID" o) as [[| | |c| |]|]; try discriminate.
  destruct (own_property "Station" o) as [[| | |s| |]|]; try discriminate.
  cbv zeta.
  destruct (same_fields (JObj o) _) eqn:E; [|discriminate].
  intros [= <-]. exact E.
Qed.

Lemma collect_map (iterator : list (string * string)) (allResults : list json) :
  collect iterator allResults
  = allResults ++ ((fun entry => parsed_or_raw entry.2) <$> iterator).
Proof.
  revert allResults. induction iterator as [|[k strValue] rest IH];
    intros allResults; simpl.
  - by rewrite app_nil_r.
  - rewrite IH, <- app_assoc. reflexivity.
Qed.

(** C8. On every World State [GetAllVotes] returns, and leaves the state
    as it was.  Its result is the JSON text of an array that has, for each
    stored entry in ascending key order, the value [JSON.parse] gives for
    the entry's text, whatever that value is, or, where [JSON.parse]
    fails, that text itself.  A text that decodes as a Record is thereby
    answered with the decoded Record.  The entries scanned are exactly the
    stored ones, one per key. *)
Theorem GetAllVotes_scan (σ : gmap string string) :
  exists results,
    GetAllVotes σ = (Returns (JSON_stringify (JArr results)), σ)
    /\ Forall2
         (fun (entry : string * string) (record : json) =>
            (forall parsed, JSON_parse entry.2 = Some parsed -> record = parsed)
            /\ (JSON_parse entry.2 = None -> record = JStr entry.2)
            /\ (forall vote, decode_Record entry.2 = Some vote ->
                   same_fields record (Vote_object vote) = true))
         (entries σ) results
    /\ (forall k v, (k, v) ∈ entries σ <-> σ !! k = Some v)
    /\ NoDup (entries σ).*1
    /\ Sorted (fun a b : string * string => String.le a.1 b.1) (entries σ).
Proof.
  exists ((fun entry => parsed_or_raw entry.2) <$> entries σ).
  split; [|split; [|split; [|split]]].
  - unfold GetAllVotes. tx_unfold. rewrite collect_map. reflexivity.
  - apply Forall2_fmap_r, Forall_Forall2_diag, Forall_forall.
    intros [k v] _. simpl. split; [|split].
    + unfold parsed_or_raw. destruct (JSON_parse v); congruence.
    + unfold parsed_or_raw. destruct (JSON_parse v); congruence.
    + intros vote. apply decode_Record_parsed_or_raw.
  - apply elem_of_entries.
  - apply entries_NoDup.
  - apply entries_Sorted.
Qed.

(** C8, as the specification words it, fails where a stored text is valid
    JSON and no Record.  The text [null] does not decode as a Record, and
    [GetAllVotes] answers it with the value [null], not with the text as a
    string: no array that holds the raw text for the first entry and the
    decoded Record for the second is what the method returns. *)
Lemma GetAllVotes_null_is_not_raw :
  let σ : gmap string string :=
    {[ "v1" := "null";
       "v2" := q "{'CandidateID':'cA','Station':'s2','VoterID':'v2'}" ]} in
  decode_Record "null" = None
  /\ GetAllVotes σ
     = (Returns (q "[null,{'CandidateID':'cA','Station':'s2','VoterID':'v2'}]"), σ)
  /\ ~ exists results,
        GetAllVotes σ = (Returns (JSON_stringify (JArr results)), σ)
        /\ Forall2 (fun (entry : string * string) (record : json) =>
                      decoded_or_raw entry.2 record)
             (entries σ) results.
Proof.
  intros σ.
  assert (Hnull : decode_Record "null" = None) by (vm_compute; reflexivity).
  assert (Hval : GetAllVotes σ
                 = (Returns (q "[null,{'CandidateID':'cA','Station':'s2','VoterID':'v2'}]"), σ))
    by (vm_compute; reflexivity).
  split; [exact Hnull|]. split; [exact Hval|].
  intros (results & Hrun & Hall).
  assert (E : entries σ
              = [("v1", "null");
                 ("v2", q "{'CandidateID':'cA','Station':'s2','VoterID':'v2'}")])
    by (vm_compute; reflexivity).
  rewrite E in Hall. clear E.
  apply Forall2_cons_inv_l in Hall as (r1 & rest & H1 & Hall & ->).
  apply Forall2_cons_inv_l in Hall as (r2 & rest' & _ & Hall & ->).
  apply Forall2_nil_inv_l in Hall as ->.
  change (decoded_or_raw "null" r1) in H1.
  unfold decoded_or_raw in H1. rewrite Hnull in H1. subst r1.
  rewrite Hval in Hrun. clear Hval. injection Hrun as Hrun.
  change (JSON_stringify (JArr [JStr "null"; r2]))
    with ("[" +:+ (QuoteJSONString "null" +:+ "," +:+ JSON_stringify r2) +:+ "]")
    in Hrun.
  revert Hrun. generalize (JSON_stringify r2). intros text Hrun.
  vm_compute in Hrun. discriminate Hrun.
Qed.

Lemma for_of_deleteState (iterator : list (string * string))
    (σ : gmap string string) :
  for_of iterator (fun result => deleteState result.1) σ
  = (Returns tt, foldl (fun m result => delete result.1 m) σ iterator).
Proof.
  revert σ. induction iterator as [|[k v] rest IH]; intros σ; simpl.
  - reflexivity.
  - unfold mbind, Tx_bind. simpl. apply IH.
Qed.

Lemma lookup_foldl_delete (iterator : list (string * string))
    (σ : gmap string string) (k : string) :
  foldl (fun m result => delete result.1 m) σ iterator !! k
  = if decide (k ∈ iterator.*1) then None else σ !! k.
Proof.
  revert σ. induction iterator as [|[k' v] rest IH]; intros σ; csimpl.
  - destruct (decide (k ∈ [])) as [Hin|_]; [by apply elem_of_nil in Hin | reflexivity].
  - rewrite IH. destruct (decide (k = k')) as [->|Hne].
    + rewrite lookup_delete_eq.
      destruct (decide (k' ∈ k' :: rest.*1)) as [_|Hn].
      * by destruct (decide (k' ∈ rest.*1)).
      * exfalso. apply Hn. left.
    + rewrite lookup_delete_ne by congruence.
      destruct (decide (k ∈ rest.*1)) as [Hin|Hin],
               (decide (k ∈ k' :: rest.*1)) as [Hin'|Hin'];
        try reflexivity.
      * exfalso. apply Hin'. by right.
      * exfalso. apply elem_of_cons in Hin' as [?|?]; [congruence | by apply Hin].
Qed.

Lemma DeleteAllVotes_empties (σ : gmap string string) :
  DeleteAllVotes σ = (Returns tt, ∅).
Proof.
  unfold DeleteAllVotes. unfold mbind, Tx_bind.
  rewrite getStateByRange_full, for_of_deleteState. f_equal.
  apply map_eq. intros k. rewrite lookup_foldl_delete, lookup_empty.
  destruct (decide (k ∈ (entries σ).*1)) as [_|Hin]; [reflexivity|].
  destruct (σ !! k) as [v|] eqn:Hk; [|reflexivity].
  exfalso. apply Hin. apply elem_of_entries in Hk.
  apply list_elem_of_fmap. exists (k, v). split; [reflexivity | exact Hk].
Qed.

(** C9. Whatever the World State holds, [DeleteAllVotes] returns and
    leaves it empty; on the empty state [GetAllVotes] returns the empty
    array, [GetVoteStatistics] the empty object, and [DeleteAllVotes]
    returns again and leaves the state empty. *)
Theorem DeleteAllVotes_idempotent (σ : gmap string string) :
  DeleteAllVotes σ = (Returns tt, ∅)
  /\ GetAllVotes ∅ = (Returns "[]", ∅)
  /\ GetVoteStatistics ∅ = (Returns "{}", ∅)
  /\ DeleteAllVotes ∅ = (Returns tt, ∅).
Proof.
  split; [apply DeleteAllVotes_empties|].
  split; [|split; [|apply DeleteAllVotes_empties]].
  - unfold GetAllVotes. tx_unfold. rewrite entries_empty. reflexivity.
  - unfold GetVoteStatistics. tx_unfold. rewrite entries_empty. reflexivity.
Qed.

(** ** Key order and the encoder *)

Lemma json_ind (P : json -> Prop) :
  P JNull -> (forall b, P (JBool b)) -> (forall n, P (JNum n)) ->
  (forall s, P (JStr s)) ->
  (forall l, Forall P l -> P (JArr l)) ->
  (forall o, Forall (fun kv : string * json => P kv.2) o -> P (JObj o)) ->
  forall j, P j.
Proof.
  intros Hnull Hbool Hnum Hstr Harr Hobj.
  fix IH 1. intros [ | b | n | s | l | o ].
  - exact Hnull.
  - apply Hbool.
  - apply Hnum.
  - apply Hstr.
  - apply Harr. induction l as [|x l IHl]; constructor; [apply IH | exact IHl].
  - apply Hobj. induction o as [|[k v] o IHo]; constructor; [apply IH | exact IHo].
Qed.

Lemma Number_eqb_eq (x y : Number.t) : Number.eqb x y = true -> x = y.
Proof.
  destruct x as [n1 m1 e1|n1], y as [n2 m2 e2|n2]; simpl; try discriminate.
  - intros H. apply andb_prop in H as [H He]. apply andb_prop in H as [Hn Hm].
    apply Bool.eqb_prop in Hn. apply N.eqb_eq in Hm. apply Z.eqb_eq in He.
    congruence.
  - intros H. apply Bool.eqb_prop in H. congruence.
Qed.

Lemma own_property_None {A : Type} (k : string) (o : list (string * A)) :
  own_property k o = None <-> k ∉ o.*1.
Proof.
  induction o as [|[k' v] o IH]; csimpl.
  - split; [intros _; apply not_elem_of_nil | reflexivity].
  - rewrite not_elem_of_cons. destruct (String.eqb_spec k k') as [->|Hne].
    + split; [discriminate | intros [? _]; congruence].
    + rewrite IH. tauto.
Qed.

Lemma own_property_Some {A : Type} (k : string) (v : A) (o : list (string * A)) :
  own_property k o = Some v -> (k, v) ∈ o.
Proof.
  induction o as [|[k' v'] o IH]; simpl; [discriminate|].
  destruct (String.eqb_spec k k') as [->|Hne].
  - intros [= ->]. left.
  - intros H. right. auto.
Qed.

Lemma unique_keys_values {A : Type} (o : list (string * A)) (k : string) (a b : A) :
  NoDup o.*1 -> (k, a) ∈ o -> (k, b) ∈ o -> a = b.
Proof.
  induction o as [|[k' v] o IH]; csimpl; intros Hnd Ha Hb.
  - by apply elem_of_nil in Ha.
  - apply NoDup_cons in Hnd as [Hk' Hnd].
    apply elem_of_cons in Ha as [Ha|Ha], Hb as [Hb|Hb]; simplify_eq.
    + reflexivity.
    + exfalso. apply Hk'. apply list_elem_of_fmap. by exists (k', b).
    + exfalso. apply Hk'. apply list_elem_of_fmap. by exists (k', a).
    + auto.
Qed.

(** Sorting by key has one result for all orders of the same entries. *)
Lemma merge_sort_key_unique {A : Type} (l1 l2 : list (string * A)) :
  NoDup l1.*1 -> l1 ≡ₚ l2 ->
  merge_sort key_le l1 = merge_sort key_le l2.
Proof.
  intros Hnd Hperm.
  apply (Sorted_unique_strong key_le).
  - intros [k1 a1] [k2 a2] H1 H2 Hle Hge.
    pose proof (key_le_antisym _ _ Hle Hge) as Hk. simpl in Hk. subst k2.
    f_equal. apply (unique_keys_values l1 k1); [exact Hnd | |].
    + by rewrite <- (merge_sort_Permutation key_le l1).
    + rewrite Hperm. by rewrite <- (merge_sort_Permutation key_le l2).
  - apply (Sorted_merge_sort key_le).
  - apply (Sorted_merge_sort key_le).
  - by rewrite !merge_sort_Permutation.
Qed.

Lemma insert_index_Permutation {A : Type} (n : N) (k : string) (v : A)
    (o : list (string * A)) :
  insert_index n k v o ≡ₚ (k, v) :: o.
Proof.
  induction o as [|[k' v'] o IH]; simpl; [reflexivity|].
  destruct (array_index k') as [n'|]; [|reflexivity].
  destruct (n' <? n)%N; [|reflexivity].
  rewrite IH. apply Permutation_swap.
Qed.

Lemma define_property_fresh {A : Type} (k : string) (v : A) (o : list (string * A)) :
  k ∉ o.*1 -> define_property k v o ≡ₚ (k, v) :: o.
Proof.
  intros Hk. unfold define_property.
  apply own_property_None in Hk. rewrite Hk.
  destruct (array_index k).
  - apply insert_index_Permutation.
  - symmetry. apply Permutation_cons_append.
Qed.

Lemma foldl_define_property {A : Type} (l acc : list (string * A)) :
  NoDup (acc ++ l).*1 ->
  foldl (fun acc kv => define_property kv.1 kv.2 acc) acc l ≡ₚ acc ++ l.
Proof.
  revert acc. induction l as [|[k v] l IH]; intros acc Hnd; simpl.
  - by rewrite app_nil_r.
  - assert (Hk : k ∉ acc.*1).
    { rewrite fmap_app in Hnd. apply NoDup_app in Hnd as (_ & Hdisj & _).
      intros Hin. apply (Hdisj k Hin). csimpl. left. }
    rewrite IH.
    + rewrite (define_property_fresh k v acc Hk). simpl.
      apply Permutation_middle.
    + rewrite (define_property_fresh k v acc Hk). simpl.
      by rewrite <- Permutation_middle in Hnd.
Qed.

Lemma unique_keys_obj (o : list (string * json)) :
  unique_keys (JObj o) = true ->
  NoDup o.*1 /\ Forall (fun kv : string * json => unique_keys kv.2 = true) o.
Proof.
  simpl. intros H. apply andb_prop in H as [Hnd Hall].
  split; [by apply bool_decide_eq_true in Hnd|].
  apply Forall_forall. intros [k v] Hin.
  rewrite forallb_forall in Hall. apply (Hall (k, v)).
  by apply list_elem_of_In.
Qed.

Lemma unique_keys_arr (l : list json) :
  unique_keys (JArr l) = true -> Forall (fun x => unique_keys x = true) l.
Proof.
  simpl. intros H. apply Forall_forall. intros x Hin.
  rewrite forallb_forall in H. apply H. by apply list_elem_of_In.
Qed.

Lemma on_values_keys {A B : Type} (f : A -> B) (o : list (string * A)) :
  (on_values f o).*1 = o.*1.
Proof.
  unfold on_values. rewrite <- list_fmap_compose.
  apply list_fmap_ext. by intros i [k v] _.
Qed.

Lemma on_values_ext {A B : Type} (f g : A -> B) (o : list (string * A)) :
  Forall (fun kv : string * A => f kv.2 = g kv.2) o ->
  on_values f o = on_values g o.
Proof.
  intros H. unfold on_values. apply list_eq_Forall2, Forall2_fmap.
  apply Forall_Forall2_diag. eapply Forall_impl; [exact H|].
  intros [k v] E. simpl in *. by rewrite E.
Qed.

Lemma on_values_compose {A B C : Type} (f : A -> B) (g : B -> C)
    (o : list (string * A)) :
  on_values g (on_values f o) = on_values (g ∘ f) o.
Proof.
  unfold on_values. rewrite <- list_fmap_compose.
  apply list_fmap_ext. by intros i [k v] _.
Qed.

(** Sorting the keys first does not change what [stringify] writes. *)
Lemma stringify_sortKeysRecursive (r : json) :
  unique_keys r = true -> stringify (sortKeysRecursive r) = stringify r.
Proof.
  induction r as [ | b | n | s | l IH | o IH ] using json_ind;
    intros Hwf; try reflexivity.
  - apply unique_keys_arr in Hwf. simpl. do 3 f_equal.
    rewrite <- list_fmap_compose. apply list_eq_Forall2, Forall2_fmap.
    apply Forall_Forall2_diag.
    rewrite Forall_forall in IH, Hwf. apply Forall_forall.
    intros x Hx. simpl. auto.
  - apply unique_keys_obj in Hwf as [Hnd Hwf]. simpl. do 4 f_equal.
    set (sorted := merge_sort key_le (on_values sortKeysRecursive o)).
    assert (Hsorted : sorted ≡ₚ on_values sortKeysRecursive o)
      by apply merge_sort_Permutation.
    assert (Hkeys : NoDup sorted.*1).
    { rewrite Hsorted, on_values_keys. exact Hnd. }
    apply merge_sort_key_unique.
    + rewrite on_values_keys, foldl_define_property; exact Hkeys.
    + unfold on_values at 1. rewrite foldl_define_property by exact Hkeys.
      simpl. rewrite Hsorted. fold (on_values stringify (on_values sortKeysRecursive o)).
      rewrite on_values_compose.
      rewrite (on_values_ext (stringify ∘ sortKeysRecursive) stringify); [reflexivity|].
      rewrite Forall_forall in IH, Hwf. apply Forall_forall.
      intros kv Hkv. simpl. auto.
Qed.

(** [stringify] does not see the order of fields. *)
Lemma stringify_same_fields (r1 : json) :
  forall r2,
    unique_keys r1 = true -> unique_keys r2 = true ->
    same_fields r1 r2 = true -> stringify r1 = stringify r2.
Proof.
  induction r1 as [ | b | n | s | l1 IH | o1 IH ] using json_ind;
    intros [ | b2 | n2 | s2 | l2 | o2 ] Hwf1 Hwf2 Hsame; try discriminate Hsame.
  - reflexivity.
  - simpl in Hsame. apply Bool.eqb_prop in Hsame. by subst.
  - simpl in Hsame. apply Number_eqb_eq in Hsame. by subst.
  - simpl in Hsame. apply String.eqb_eq in Hsame. by subst.
  - apply unique_keys_arr in Hwf1, Hwf2. simpl. do 3 f_equal.
    revert l2 Hwf2 Hsame.
    induction l1 as [|x l1 IHl]; intros [|y l2] Hwf2 Hsame;
      try discriminate Hsame; [reflexivity|].
    simpl in Hsame. apply andb_prop in Hsame as [Hxy Hrest].
    apply Forall_cons in IH as [IHx IH], Hwf1 as [Hx Hwf1], Hwf2 as [Hy Hwf2].
    csimpl. f_equal; [by apply IHx | by apply IHl].
  - apply unique_keys_obj in Hwf1 as [Hnd1 Hwf1], Hwf2 as [Hnd2 Hwf2].
    simpl in Hsame. apply andb_prop in Hsame as [Hlen Hall].
    apply Nat.eqb_eq in Hlen. rewrite forallb_forall in Hall.
    simpl. do 4 f_equal.
    apply merge_sort_key_unique; [by rewrite on_values_keys|].
    apply submseteq_length_Permutation.
    + apply NoDup_submseteq.
      * apply (NoDup_fmap_1 fst). by rewrite on_values_keys.
      * intros [k t] Hin. unfold on_values in Hin.
        apply list_elem_of_fmap in Hin as ([k' v] & [= -> ->] & Hin).
        simpl in *.
        specialize (Hall (k', v) (proj1 (list_elem_of_In _ _) Hin)). simpl in Hall.
        destruct (own_property k' o2) as [v'|] eqn:Hown; [|discriminate].
        apply own_property_Some in Hown.
        rewrite Forall_forall in IH, Hwf1, Hwf2.
        pose proof (IH (k', v) Hin v' (Hwf1 _ Hin) (Hwf2 _ Hown) Hall) as E.
        simpl in E. rewrite E.
        unfold on_values. apply list_elem_of_fmap. by exists (k', v').
    + unfold on_values. rewrite !length_fmap. lia.
Qed.

(** C3. Two well-formed records with the same fields and field values,
    in whatever order the fields of each object are given, have the same
    encoding; the encoder is a total function. *)
Theorem encode_key_order (r1 r2 : json) :
  unique_keys r1 = true -> unique_keys r2 = true ->
  same_fields r1 r2 = true ->
  encode r1 = encode r2.
Proof.
  intros Hwf1 Hwf2 Hsame. unfold encode.
  rewrite !stringify_sortKeysRecursive by assumption.
  by apply stringify_same_fields.
Qed.

Lemma encode_key_order_witness :
  encode (JObj [("b", JObj [("y", JStr "1"); ("x", JArr [JObj [("q", JNull); ("p", JBool true)]])]);
                ("a", JStr "3")])
  = encode (JObj [("a", JStr "3");
                  ("b", JObj [("x", JArr [JObj [("p", JBool true); ("q", JNull)]]); ("y", JStr "1")])]).
Proof.
  apply encode_key_order; reflexivity.
Defined.

(** ** Reading and writing properties *)

Lemma own_property_replace {A : Type} (k k' : string) (v : A) (o : list (string * A)) :
  own_property k' (replace_property k v o)
  = if String.eqb k' k then (fun _ => v) <$> own_property k o else own_property k' o.
Proof.
  induction o as [|[k0 v0] o IH]; simpl.
  - by destruct (String.eqb k' k).
  - destruct (String.eqb_spec k k0) as [->|Hne]; simpl.
    + destruct (String.eqb_spec k' k0) as [->|Hne']; reflexivity.
    + rewrite IH. destruct (String.eqb_spec k' k0) as [->|Hne'].
      * destruct (String.eqb_spec k0 k); [congruence | reflexivity].
      * reflexivity.
Qed.

Lemma own_property_insert_index {A : Type} (n : N) (k k' : string) (v : A)
    (o : list (string * A)) :
  own_property k o = None ->
  own_property k' (insert_index n k v o)
  = if String.eqb k' k then Some v else own_property k' o.
Proof.
  induction o as [|[k0 v0] o IH]; simpl; [reflexivity|].
  destruct (String.eqb_spec k k0) as [->|Hne]; [discriminate|]. intros Hk.
  destruct (array_index k0) as [n0|]; [destruct (n0 <? n)%N|]; simpl;
    try reflexivity.
  rewrite (IH Hk).
  destruct (String.eqb_spec k' k0) as [->|Hne']; [|reflexivity].
  destruct (String.eqb_spec k0 k); [congruence | reflexivity].
Qed.

Lemma own_property_app {A : Type} (k k' : string) (v : A) (o : list (string * A)) :
  own_property k o = None ->
  own_property k' (o ++ [(k, v)])
  = if String.eqb k' k then Some v else own_property k' o.
Proof.
  induction o as [|[k0 v0] o IH]; simpl; [reflexivity|].
  destruct (String.eqb_spec k k0) as [->|Hne]; [discriminate|]. intros Hk.
  rewrite (IH Hk).
  destruct (String.eqb_spec k' k0) as [->|Hne']; [|reflexivity].
  destruct (String.eqb_spec k0 k); [congruence | reflexivity].
Qed.

(** After [define_property] the property reads as the value given, and
    every other property as before. *)
Lemma own_property_define {A : Type} (k k' : string) (v : A) (o : list (string * A)) :
  own_property k' (define_property k v o)
  = if String.eqb k' k then Some v else own_property k' o.
Proof.
  unfold define_property. destruct (own_property k o) as [v0|] eqn:Hk.
  - rewrite own_property_replace, Hk. reflexivity.
  - destruct (array_index k).
    + by apply own_property_insert_index.
    + by apply own_property_app.
Qed.

(** ** The tally *)

(** An entry that [JSON.parse] rejects is passed over, wherever it is. *)
Lemma tally_skips_unparsable (before after : list (string * string))
    (k strValue : string) (allResults : list (string * value)) :
  JSON_parse strValue = None ->
  tally (before ++ (k, strValue) :: after) allResults
  = tally (before ++ after) allResults.
Proof.
  intros Hfail. revert allResults.
  induction before as [|[k0 v0] before IH]; intros allResults; simpl;
    unfold Buffer_toString, Buffer_from.
  - by rewrite Hfail.
  - destruct (JSON_parse v0) as [vote|]; [|apply IH].
    destruct (get_CandidateID vote) as [candidate|e]; [|reflexivity].
    destruct (ToPropertyKey candidate) as [key|e]; [|reflexivity].
    apply IH.
Qed.

Lemma plain_not_proto (c : string) : plain c = true -> String.eqb c "__proto__" = false.
Proof.
  unfold plain, Object_prototype.
  destruct (String.eqb c "constructor"); [discriminate|].
  destruct (String.eqb c "__proto__"); [discriminate | reflexivity].
Qed.

Lemma Get_plain (o : list (string * value)) (c : string) :
  plain c = true -> Get o c = default VUndefined (own_property c o).
Proof.
  unfold plain, Get. intros H.
  destruct (own_property c o); [reflexivity|].
  by destruct (Object_prototype c).
Qed.

Lemma tally_counts_from (votes : list Vote) :
  forall (allResults : list (string * value)) (f : string -> nat),
    Forall (fun vote => plain (CandidateID vote) = true) votes ->
    holds_counts allResults f ->
    exists o,
      tally (ballot <$> votes) allResults = Returns o
      /\ holds_counts o (fun c => (f c + votes_for c votes)%nat).
Proof.
  induction votes as [|[v c s] votes IH]; intros allResults f Hplain Hcounts.
  - exists allResults. split; [reflexivity|].
    intros c'. simpl. rewrite Nat.add_0_r. apply Hcounts.
  - apply Forall_cons in Hplain as [Hc Hplain]. simpl in Hc.
    csimpl. unfold ballot at 1, Buffer_toString, Buffer_from. simpl.
    rewrite encode_Vote, JSON_parse_Vote_text. simpl.
    rewrite !(Get_plain _ c Hc).
    unfold Put. rewrite (plain_not_proto c Hc).
    set (o1 := if negb (ToBoolean (default VUndefined (own_property c allResults)))
               then define_property c (VNumber 0) allResults else allResults).
    destruct (IH (define_property c (plus_one (default VUndefined (own_property c o1))) o1)
                 (fun c' => ((if String.eqb c c' then 1 else 0) + f c')%nat) Hplain)
      as (o & Ho & Hcounts').
    + intros c'. rewrite own_property_define. unfold o1.
      pose proof (Hcounts c) as Hfc. rewrite (String.eqb_sym c c').
      destruct (String.eqb_spec c' c) as [->|Hne].
      * destruct (f c) as [|n]; rewrite Hfc; simpl.
        -- rewrite own_property_define, String.eqb_refl. reflexivity.
        -- rewrite Hfc. simpl. do 2 f_equal. lia.
      * destruct (negb _); [rewrite own_property_define|];
          try (destruct (String.eqb_spec c' c); [congruence|]); apply Hcounts.
    + exists o. split; [exact Ho|].
      intros c'. rewrite Hcounts'. simpl.
      replace ((if String.eqb c c' then 1 else 0) + f c' + votes_for c' votes)%nat
        with (f c' + ((if String.eqb c c' then 1 else 0) + votes_for c' votes))%nat by lia.
      reflexivity.
Qed.

(** On stored votes whose candidate names are plain, the tally returns and
    its object has, for every candidate, the number of votes for it, and
    no property for a candidate without votes. *)
Theorem tally_counts (votes : list Vote) :
  Forall (fun vote => plain (CandidateID vote) = true) votes ->
  exists o,
    tally (ballot <$> votes) [] = Returns o
    /\ forall c,
         own_property c o
         = match votes_for c votes with
           | O => None
           | S n => Some (VNumber (S n))
           end.
Proof.
  intros Hplain.
  destruct (tally_counts_from votes [] (fun _ => O) Hplain) as (o & Ho & Hcounts).
  - intros c. reflexivity.
  - exists o. split; [exact Ho | exact Hcounts].
Qed.

Lemma votes_for_Permutation (c : string) (votes votes' : list Vote) :
  votes ≡ₚ votes' -> votes_for c votes = votes_for c votes'.
Proof. induction 1; simpl; lia. Qed.

(** X23. The counts do not depend on the order in which the iterator
    yields the votes; the order of the properties in the object may. *)
Theorem tally_order (votes votes' : list Vote) (o o' : list (string * value)) :
  Forall (fun vote => plain (CandidateID vote) = true) votes ->
  votes ≡ₚ votes' ->
  tally (ballot <$> votes) [] = Returns o ->
  tally (ballot <$> votes') [] = Returns o' ->
  forall c, own_property c o = own_property c o'.
Proof.
  intros Hplain Hperm Ho Ho' c.
  destruct (tally_counts votes Hplain) as (o1 & Ho1 & H1).
  assert (Hplain' : Forall (fun vote => plain (CandidateID vote) = true) votes')
    by (by rewrite <- Hperm).
  destruct (tally_counts votes' Hplain') as (o2 & Ho2 & H2).
  rewrite Ho in Ho1. rewrite Ho' in Ho2.
  injection Ho1 as <-. injection Ho2 as <-.
  rewrite H1, H2, (votes_for_Permutation c votes votes' Hperm). reflexivity.
Qed.

Example tally_order_of_properties :
  tally [ballot {| VoterID := "v1"; CandidateID := "cB"; Station := "s1" |};
         ballot {| VoterID := "v2"; CandidateID := "cA"; Station := "s2" |}] []
  = Returns [("cB", VNumber 1); ("cA", VNumber 1)]
  /\ tally [ballot {| VoterID := "v2"; CandidateID := "cA"; Station := "s2" |};
            ballot {| VoterID := "v1"; CandidateID := "cB"; Station := "s1" |}] []
     = Returns [("cA", VNumber 1); ("cB", VNumber 1)].
Proof. split; reflexivity. Qed.

(** The scenario of the specification: three registrations, two for one
    candidate and one for another. *)
Example tally_scenario :
  let t1 := q "{'CandidateID':'cA','Station':'s1','VoterID':'v1'}" in
  let t2 := q "{'CandidateID':'cA','Station':'s2','VoterID':'v2'}" in
  let t3 := q "{'CandidateID':'cB','Station':'s3','VoterID':'v3'}" in
  let σ1 : gmap string string := {[ "v1" := t1 ]} in
  let σ2 : gmap string string := {[ "v1" := t1; "v2" := t2 ]} in
  let σ3 : gmap string string := {[ "v1" := t1; "v2" := t2; "v3" := t3 ]} in
  RegisterVote "v1" "cA" "s1" ∅ = (Returns tt, σ1)
  /\ RegisterVote "v2" "cA" "s2" σ1 = (Returns tt, σ2)
  /\ RegisterVote "v3" "cB" "s3" σ2 = (Returns tt, σ3)
  /\ GetVoteStatistics σ3 = (Returns (q "{'cA':2,'cB':1}"), σ3).
Proof. repeat apply conj; vm_compute; reflexivity. Qed.

(** C1. One stored value that is valid JSON and not a vote makes the whole
    tally throw: [JSON.parse] accepts the text [null], the [try] block ends
    there, and reading [CandidateID] from the result throws a TypeError that
    nothing catches.  The vote stored beside it is not counted. *)
Theorem GetVoteStatistics_null_throws :
  let σ : gmap string string :=
    {[ "v1" := q "{'CandidateID':'cA','Station':'s1','VoterID':'v1'}";
       "v2" := "null" ]} in
  GetVoteStatistics σ = (Throws TypeError, σ).
Proof. vm_compute. reflexivity. Qed.

(** A stored value that is valid JSON and has no [CandidateID] is counted,
    under the name [undefined]. *)
Example GetVoteStatistics_counts_non_votes :
  let σ : gmap string string :=
    {[ "v1" := q "{'CandidateID':'cA','Station':'s1','VoterID':'v1'}";
       "v2" := "5" ]} in
  GetVoteStatistics σ = (Returns (q "{'cA':1,'undefined':1}"), σ).
Proof. vm_compute. reflexivity. Qed.

(** C2. A vote registered for the candidate [toString] is not counted:
    the collected object inherits a function of that name, so the count is
    never set to zero, and adding one to the function yields a string. *)
Theorem GetVoteStatistics_inherited_name :
  let σ : gmap string string :=
    {[ "v1" := q "{'CandidateID':'toString','Station':'s1','VoterID':'v1'}" ]} in
  RegisterVote "v1" "toString" "s1" ∅ = (Returns tt, σ)
  /\ GetVoteStatistics σ
     = (Returns (q "{'toString':'function toString() { [native code] }1'}"), σ).
Proof. apply conj; vm_compute; reflexivity. Qed.

(** The same for the transaction: when the World State holds the ballots of
    [votes], all for plain candidate names, [GetVoteStatistics] returns the
    JSON text of an object with these counts and writes nothing. *)
Theorem GetVoteStatistics_counts (σ : gmap string string) (votes : list Vote) :
  entries σ = ballot <$> votes ->
  Forall (fun vote => plain (CandidateID vote) = true) votes ->
  exists o,
    GetVoteStatistics σ = (Returns (stringify_results o), σ)
    /\ forall c,
         own_property c o
         = match votes_for c votes with
           | O => None
           | S n => Some (VNumber (S n))
           end.
Proof.
  intros Hentries Hplain.
  destruct (tally_counts votes Hplain) as (o & Ho & Hcounts).
  exists o. split; [|exact Hcounts].
  unfold GetVoteStatistics. tx_unfold. rewrite Hentries, Ho. reflexivity.
Qed.

(** A vote for [__proto__] leaves no trace: the name reads as the prototype
    object, and the assignment goes to a setter that ignores a string. *)
Example GetVoteStatistics_proto :
  let σ : gmap string string :=
    {[ "v1" := q "{'CandidateID':'__proto__','Station':'s1','VoterID':'v1'}" ]} in
  RegisterVote "v1" "__proto__" "s1" ∅ = (Returns tt, σ)
  /\ GetVoteStatistics σ = (Returns "{}", σ).
Proof. apply conj; vm_compute; reflexivity. Qed.

(** * Further properties of the contract *)

(** ** Each method, case by case *)

Lemma VoteExists_eq (σ : gmap string string) (v : string) :
  VoteExists v σ = (Returns (holds σ v), σ).
Proof. reflexivity. Qed.

Lemma ReadVote_eq (σ : gmap string string) (v : string) :
  ReadVote v σ
  = if holds σ v then (Returns (default EmptyString (σ !! v)), σ)
    else (Throws (NotFound v), σ).
Proof.
  unfold ReadVote, holds. tx_unfold.
  by destruct (default EmptyString (σ !! v)).
Qed.

Lemma RegisterVote_eq (σ : gmap string string) (v c s : string) :
  RegisterVote v c s σ
  = if holds σ v then (Throws (AlreadyExists v), σ)
    else (Returns tt, <[v := Vote_text v c s]> σ).
Proof.
  rewrite <- encode_Vote. unfold RegisterVote, mbind, Tx_bind.
  rewrite VoteExists_eq. by destruct (holds σ v).
Qed.

Lemma UpdateVote_eq (σ : gmap string string) (v c s : string) :
  UpdateVote v c s σ
  = if holds σ v then (Returns tt, <[v := Vote_text v c s]> σ)
    else (Throws (NotFound v), σ).
Proof.
  rewrite <- encode_Vote. unfold UpdateVote, mbind, Tx_bind.
  rewrite VoteExists_eq. by destruct (holds σ v).
Qed.

Lemma DeleteVote_eq (σ : gmap string string) (v : string) :
  DeleteVote v σ
  = if holds σ v then (Returns tt, delete v σ) else (Throws (NotFound v), σ).
Proof.
  unfold DeleteVote, mbind, Tx_bind.
  rewrite VoteExists_eq. by destruct (holds σ v).
Qed.

Lemma InitLedger_eq (σ : gmap string string) :
  InitLedger σ
  = (Returns tt,
     <["voter2" := Vote_text "voter2" "candidate2" "station2"]>
       (<["voter1" := Vote_text "voter1" "candidate1" "station1"]> σ)).
Proof. reflexivity. Qed.

Lemma holds_Some (σ : gmap string string) (v value : string) :
  σ !! v = Some value -> value <> EmptyString -> holds σ v = true.
Proof. intros H Hne. unfold holds. rewrite H. by apply length_pos_nonempty. Qed.

Lemma holds_None (σ : gmap string string) (v : string) :
  σ !! v = None -> holds σ v = false.
Proof. intros H. unfold holds. by rewrite H. Qed.

Lemma holds_true (σ : gmap string string) (v : string) :
  holds σ v = true ->
  exists value, σ !! v = Some value /\ value <> EmptyString.
Proof.
  unfold holds. destruct (σ !! v) as [value|]; simpl; [|discriminate].
  intros H. exists value. split; [reflexivity|]. by intros ->.
Qed.

Lemma holds_insert (σ : gmap string string) (v c s : string) :
  holds (<[v := Vote_text v c s]> σ) v = true.
Proof. unfold holds. rewrite lookup_insert_eq. reflexivity. Qed.

Lemma holds_delete (σ : gmap string string) (v : string) :
  holds (delete v σ) v = false.
Proof. unfold holds. by rewrite lookup_delete_eq. Qed.

(** ** Single-record operations *)

(** X1. Deleting a voter whose key holds a non-empty value returns and
    removes the key; afterwards the voter does not exist, reading it
    throws the does-not-exist error, and every other key is as before. *)
Theorem DeleteVote_present (σ : gmap string string) (v value : string) :
  σ !! v = Some value -> value <> EmptyString ->
  DeleteVote v σ = (Returns tt, delete v σ)
  /\ VoteExists v (delete v σ) = (Returns false, delete v σ)
  /\ ReadVote v (delete v σ) = (Throws (NotFound v), delete v σ)
  /\ forall k, k <> v -> delete v σ !! k = σ !! k.
Proof.
  intros H Hne. split; [|split; [|split]].
  - rewrite DeleteVote_eq, (holds_Some σ v value H Hne). reflexivity.
  - rewrite VoteExists_eq, holds_delete. reflexivity.
  - rewrite ReadVote_eq, holds_delete. reflexivity.
  - intros k Hk. apply lookup_delete_ne. congruence.
Qed.

Lemma DeleteVote_present_witness :
  DeleteVote "v1" {[ "v1" := "ballot"; "v2" := "other" ]}
  = (Returns tt, delete "v1" {[ "v1" := "ballot"; "v2" := "other" ]})
  /\ VoteExists "v1" (delete "v1" {[ "v1" := "ballot"; "v2" := "other" ]})
     = (Returns false, delete "v1" {[ "v1" := "ballot"; "v2" := "other" ]})
  /\ ReadVote "v1" (delete "v1" {[ "v1" := "ballot"; "v2" := "other" ]})
     = (Throws (NotFound "v1"), delete "v1" {[ "v1" := "ballot"; "v2" := "other" ]})
  /\ forall k, k <> "v1" ->
       delete "v1" ({[ "v1" := "ballot"; "v2" := "other" ]} : gmap string string) !! k
       = ({[ "v1" := "ballot"; "v2" := "other" ]} : gmap string string) !! k.
Proof.
  apply (DeleteVote_present {[ "v1" := "ballot"; "v2" := "other" ]} "v1" "ballot").
  - reflexivity.
  - discriminate.
Defined.

(** X2. On every World State and key the guards agree with [VoteExists]:
    either the key holds a non-empty value, and then [VoteExists] returns
    true, [ReadVote] returns that value as it is stored, [RegisterVote]
    throws, and [UpdateVote] and [DeleteVote] return; or [VoteExists]
    returns false, [RegisterVote] returns, and the other three throw. *)
Theorem guards_agree (σ : gmap string string) (v c s : string) :
  (VoteExists v σ = (Returns true, σ)
   /\ (exists text, σ !! v = Some text /\ text <> EmptyString
                    /\ ReadVote v σ = (Returns text, σ))
   /\ RegisterVote v c s σ = (Throws (AlreadyExists v), σ)
   /\ (exists σ', UpdateVote v c s σ = (Returns tt, σ'))
   /\ (exists σ', DeleteVote v σ = (Returns tt, σ')))
  \/ (VoteExists v σ = (Returns false, σ)
      /\ ReadVote v σ = (Throws (NotFound v), σ)
      /\ (exists σ', RegisterVote v c s σ = (Returns tt, σ'))
      /\ UpdateVote v c s σ = (Throws (NotFound v), σ)
      /\ DeleteVote v σ = (Throws (NotFound v), σ)).
Proof.
  rewrite VoteExists_eq, ReadVote_eq, RegisterVote_eq, UpdateVote_eq, DeleteVote_eq.
  destruct (holds σ v) eqn:Hv.
  - left. apply holds_true in Hv as (text & Hlook & Hne).
    rewrite Hlook. simpl. eauto 10.
  - right. eauto 10.
Qed.

(** X3. The four query methods never write: whatever the World State
    holds and whether they return or throw, the state they hand back is
    the one they were given. *)
Theorem queries_do_not_write (σ : gmap string string) (v : string) :
  (VoteExists v σ).2 = σ
  /\ (ReadVote v σ).2 = σ
  /\ (GetAllVotes σ).2 = σ
  /\ (GetVoteStatistics σ).2 = σ.
Proof.
  split; [reflexivity|]. split; [|split; [reflexivity|]].
  - rewrite ReadVote_eq. by destruct (holds σ v).
  - unfold GetVoteStatistics. unfold mbind, Tx_bind.
    rewrite getStateByRange_full. by destruct (tally (entries σ) []).
Qed.

(** X4. [RegisterVote], [UpdateVote] and [DeleteVote] touch no key but
    their own, whether they return or throw. *)
Theorem mutators_frame (σ : gmap string string) (v c s k : string) :
  k <> v ->
  (RegisterVote v c s σ).2 !! k = σ !! k
  /\ (UpdateVote v c s σ).2 !! k = σ !! k
  /\ (DeleteVote v σ).2 !! k = σ !! k.
Proof.
  intros Hk. rewrite RegisterVote_eq, UpdateVote_eq, DeleteVote_eq.
  destruct (holds σ v); simpl; repeat split;
    try reflexivity;
    try (apply lookup_insert_ne; congruence);
    try (apply lookup_delete_ne; congruence).
Qed.

Lemma mutators_frame_witness :
  (RegisterVote "v2" "cA" "s1" {[ "v1" := "ballot" ]}).2 !! "v1"
  = ({[ "v1" := "ballot" ]} : gmap string string) !! "v1"
  /\ (UpdateVote "v2" "cA" "s1" {[ "v1" := "ballot" ]}).2 !! "v1"
     = ({[ "v1" := "ballot" ]} : gmap string string) !! "v1"
  /\ (DeleteVote "v2" {[ "v1" := "ballot" ]}).2 !! "v1"
     = ({[ "v1" := "ballot" ]} : gmap string string) !! "v1".
Proof.
  apply (mutators_frame {[ "v1" := "ballot" ]} "v2" "cA" "s1" "v1").
  discriminate.
Defined.

(** ** How the operations compose *)

(** X5. Registering an absent voter and then deleting it gives back the
    World State from before the registration. *)
Theorem RegisterVote_then_DeleteVote (σ : gmap string string) (v c s : string) :
  σ !! v = None ->
  exists σ',
    RegisterVote v c s σ = (Returns tt, σ')
    /\ DeleteVote v σ' = (Returns tt, σ).
Proof.
  intros H. exists (<[v := Vote_text v c s]> σ). split.
  - rewrite RegisterVote_eq, (holds_None σ v H). reflexivity.
  - rewrite DeleteVote_eq, holds_insert. f_equal. by apply delete_insert_id.
Qed.

Lemma RegisterVote_then_DeleteVote_witness :
  exists σ',
    RegisterVote "v2" "cA" "s1" {[ "v1" := "ballot" ]} = (Returns tt, σ')
    /\ DeleteVote "v2" σ' = (Returns tt, {[ "v1" := "ballot" ]}).
Proof.
  apply (RegisterVote_then_DeleteVote {[ "v1" := "ballot" ]} "v2" "cA" "s1").
  reflexivity.
Defined.

(** X6. A voter is registered at most once: after a registration that
    returned, registering the same voter again throws the already-exists
    error, whatever candidate and station are given, and writes nothing. *)
Theorem RegisterVote_twice (σ σ' : gmap string string) (v c s c' s' : string) :
  RegisterVote v c s σ = (Returns tt, σ') ->
  RegisterVote v c' s' σ' = (Throws (AlreadyExists v), σ').
Proof.
  rewrite !RegisterVote_eq. destruct (holds σ v); [discriminate|].
  intros [= <-]. by rewrite holds_insert.
Qed.

Lemma RegisterVote_twice_witness :
  RegisterVote "v1" "cB" "s2"
    {[ "v1" := q "{'CandidateID':'cA','Station':'s1','VoterID':'v1'}" ]}
  = (Throws (AlreadyExists "v1"),
     {[ "v1" := q "{'CandidateID':'cA','Station':'s1','VoterID':'v1'}" ]}).
Proof.
  apply (RegisterVote_twice ∅ _ "v1" "cA" "s1" "cB" "s2").
  reflexivity.
Defined.

(** X7. After a deletion that returned, the voter is gone: deleting it
    again or updating it throws the does-not-exist error, and registering
    it again returns. *)
Theorem after_DeleteVote (σ σ' : gmap string string) (v c s : string) :
  DeleteVote v σ = (Returns tt, σ') ->
  DeleteVote v σ' = (Throws (NotFound v), σ')
  /\ UpdateVote v c s σ' = (Throws (NotFound v), σ')
  /\ exists σ'', RegisterVote v c s σ' = (Returns tt, σ'').
Proof.
  rewrite !DeleteVote_eq, UpdateVote_eq, RegisterVote_eq.
  destruct (holds σ v); [|discriminate].
  intros [= <-]. rewrite holds_delete. eauto.
Qed.

Lemma after_DeleteVote_witness :
  DeleteVote "v1" ∅ = (Throws (NotFound "v1"), ∅)
  /\ UpdateVote "v1" "cA" "s1" ∅ = (Throws (NotFound "v1"), ∅)
  /\ exists σ'', RegisterVote "v1" "cA" "s1" ∅ = (Returns tt, σ'').
Proof.
  apply (after_DeleteVote {[ "v1" := "ballot" ]} ∅ "v1" "cA" "s1").
  reflexivity.
Defined.

(** X8. The last update wins: two updates of a voter in a row leave the
    World State that the second one alone would leave. *)
Theorem UpdateVote_twice (σ σ2 : gmap string string) (v c2 s2 c3 s3 : string) :
  UpdateVote v c2 s2 σ = (Returns tt, σ2) ->
  UpdateVote v c3 s3 σ2 = UpdateVote v c3 s3 σ
  /\ exists σ3, UpdateVote v c3 s3 σ = (Returns tt, σ3).
Proof.
  rewrite !UpdateVote_eq. destruct (holds σ v); [|discriminate].
  intros [= <-]. rewrite holds_insert, insert_insert_eq. eauto.
Qed.

Lemma UpdateVote_twice_witness :
  UpdateVote "v1" "cC" "s3"
    {[ "v1" := q "{'CandidateID':'cB','Station':'s2','VoterID':'v1'}" ]}
  = UpdateVote "v1" "cC" "s3" {[ "v1" := "ballot" ]}
  /\ exists σ3, UpdateVote "v1" "cC" "s3" {[ "v1" := "ballot" ]} = (Returns tt, σ3).
Proof.
  apply (UpdateVote_twice {[ "v1" := "ballot" ]} _ "v1" "cB" "s2" "cC" "s3").
  reflexivity.
Defined.

(** X9. Registering an absent voter and then updating it leaves the World
    State that registering it with the new candidate and station would
    have left. *)
Theorem RegisterVote_then_UpdateVote (σ : gmap string string)
    (v c1 s1 c2 s2 : string) :
  σ !! v = None ->
  exists σ1 σ2,
    RegisterVote v c1 s1 σ = (Returns tt, σ1)
    /\ UpdateVote v c2 s2 σ1 = (Returns tt, σ2)
    /\ RegisterVote v c2 s2 σ = (Returns tt, σ2).
Proof.
  intros H. exists (<[v := Vote_text v c1 s1]> σ), (<[v := Vote_text v c2 s2]> σ).
  rewrite !RegisterVote_eq, UpdateVote_eq, (holds_None σ v H), holds_insert,
    insert_insert_eq.
  auto.
Qed.

Lemma RegisterVote_then_UpdateVote_witness :
  exists σ1 σ2,
    RegisterVote "v1" "cA" "s1" ∅ = (Returns tt, σ1)
    /\ UpdateVote "v1" "cB" "s2" σ1 = (Returns tt, σ2)
    /\ RegisterVote "v1" "cB" "s2" ∅ = (Returns tt, σ2).
Proof.
  apply (RegisterVote_then_UpdateVote ∅ "v1" "cA" "s1" "cB" "s2").
  reflexivity.
Defined.

(** X10. [InitLedger] is idempotent: run on the World State it has just
    left, it returns and leaves that state again.  After it, [voter1] and
    [voter2] exist, so registering either throws. *)
Theorem InitLedger_idempotent (σ : gmap string string) (c s : string) :
  exists σ',
    InitLedger σ = (Returns tt, σ')
    /\ InitLedger σ' = (Returns tt, σ')
    /\ RegisterVote "voter1" c s σ' = (Throws (AlreadyExists "voter1"), σ')
    /\ RegisterVote "voter2" c s σ' = (Throws (AlreadyExists "voter2"), σ').
Proof.
  eexists. split; [apply InitLedger_eq|].
  split; [|split].
  - rewrite InitLedger_eq. f_equal. apply map_eq. intros k.
    rewrite !lookup_insert.
    destruct (decide ("voter2" = k)), (decide ("voter1" = k)); reflexivity.
  - rewrite RegisterVote_eq.
    erewrite holds_Some; [reflexivity| |].
    + rewrite lookup_insert_ne by discriminate. apply lookup_insert_eq.
    + discriminate.
  - rewrite RegisterVote_eq.
    erewrite holds_Some; [reflexivity| |].
    + apply lookup_insert_eq.
    + discriminate.
Qed.

(** X11. The set of keys moves only as the method's name says:
    [UpdateVote] never changes it, [RegisterVote] never removes a key and
    adds none but its voter, [DeleteVote] never adds a key and removes none
    but its voter; this holds whether the method returns or throws. *)
Theorem mutators_keys (σ : gmap string string) (v c s : string) :
  dom (RegisterVote v c s σ).2 ∖ {[ v ]} = dom σ ∖ {[ v ]}
  /\ dom σ ⊆ dom (RegisterVote v c s σ).2
  /\ dom (UpdateVote v c s σ).2 = dom σ
  /\ dom (DeleteVote v σ).2 ∖ {[ v ]} = dom σ ∖ {[ v ]}
  /\ dom (DeleteVote v σ).2 ⊆ dom σ.
Proof.
  rewrite RegisterVote_eq, UpdateVote_eq, DeleteVote_eq.
  destruct (holds σ v) eqn:Hv; simpl.
  - apply holds_true in Hv as (text & Hlook & _).
    rewrite (dom_insert_lookup_L σ v) by eauto.
    rewrite dom_delete_L. repeat split; try reflexivity.
    + apply set_eq. intros x. rewrite !elem_of_difference. tauto.
    + apply subseteq_difference_l. reflexivity.
  - rewrite dom_insert_L. repeat split; try reflexivity.
    + apply set_eq. intros x.
      rewrite !elem_of_difference, elem_of_union. tauto.
    + apply union_subseteq_r.
Qed.

(** ** What the contract keeps in the World State *)

Lemma is_ballot_Vote_text (v c s : string) : is_ballot (v, Vote_text v c s) = true.
Proof.
  unfold is_ballot. simpl. rewrite JSON_parse_Vote_text. simpl.
  by rewrite !String.eqb_refl.
Qed.

Lemma is_ballot_inv (k text : string) :
  is_ballot (k, text) = true -> exists c s, text = Vote_text k c s.
Proof.
  unfold is_ballot. simpl.
  destruct (JSON_parse text) as [[ | | | | |o]|]; try discriminate.
  destruct o as [|[k1 [ | | |c| | ]] o]; try discriminate.
  destruct o as [|[k2 [ | | |s| | ]] o]; try discriminate.
  destruct o as [|[k3 [ | | |v| | ]] o]; try discriminate.
  destruct o; [|discriminate].
  intros H. repeat (apply andb_prop in H as [H ?]).
  repeat match goal with
         | E : String.eqb _ _ = true |- _ => apply String.eqb_eq in E
         end.
  subst. eauto.
Qed.

(** A World State holds only ballots when every value is the encoding of
    a vote of the voter under whose key it is stored. *)
Lemma only_ballots_spec (σ : gmap string string) :
  only_ballots σ = true
  <-> forall k text, σ !! k = Some text -> exists c s, text = Vote_text k c s.
Proof.
  unfold only_ballots. rewrite forallb_forall. split.
  - intros H k text Hk. apply is_ballot_inv, H.
    by apply list_elem_of_In, elem_of_entries.
  - intros H [k text] Hin.
    apply list_elem_of_In, elem_of_entries in Hin.
    destruct (H k text Hin) as (c & s & ->). apply is_ballot_Vote_text.
Qed.

Lemma only_ballots_insert (σ : gmap string string) (v c s : string) :
  only_ballots σ = true -> only_ballots (<[v := Vote_text v c s]> σ) = true.
Proof.
  rewrite !only_ballots_spec. intros H k text.
  rewrite lookup_insert. destruct (decide (v = k)) as [->|Hne].
  - intros [= <-]. eauto.
  - apply H.
Qed.

Lemma only_ballots_delete (σ : gmap string string) (v : string) :
  only_ballots σ = true -> only_ballots (delete v σ) = true.
Proof.
  rewrite !only_ballots_spec. intros H k text.
  rewrite lookup_delete. destruct (decide (v = k)); [discriminate | apply H].
Qed.

Lemma commit_query {A : Type} (tx : Tx A) (σ : gmap string string) :
  (tx σ).2 = σ -> commit tx σ = σ.
Proof. unfold commit. destruct (tx σ) as [[a|e] σ']; simpl; congruence. Qed.

(** Every method keeps a World State of ballots a World State of ballots. *)
Lemma invoke_only_ballots (call : Call) (σ : gmap string string) :
  only_ballots σ = true -> only_ballots (invoke call σ) = true.
Proof.
  intros H. destruct call as [ |v c s|v|v c s|v|v| | | ]; simpl; unfold commit.
  - rewrite InitLedger_eq. by do 2 apply only_ballots_insert.
  - rewrite RegisterVote_eq. destruct (holds σ v); [exact H|].
    by apply only_ballots_insert.
  - rewrite ReadVote_eq. by destruct (holds σ v).
  - rewrite UpdateVote_eq. destruct (holds σ v); [|exact H].
    by apply only_ballots_insert.
  - rewrite DeleteVote_eq. destruct (holds σ v); [|exact H].
    by apply only_ballots_delete.
  - exact H.
  - unfold GetVoteStatistics, mbind, Tx_bind. rewrite getStateByRange_full.
    by destruct (tally (entries σ) []).
  - exact H.
  - by rewrite DeleteAllVotes_empties.
Qed.

Lemma only_ballots_empty : only_ballots ∅ = true.
Proof. reflexivity. Qed.

Lemma foldl_invoke_only_ballots (calls : list Call) (σ : gmap string string) :
  only_ballots σ = true ->
  only_ballots (foldl (fun σ call => invoke call σ) σ calls) = true.
Proof.
  revert σ. induction calls as [|call calls IH]; intros σ Hσ; simpl; [exact Hσ|].
  apply IH. by apply invoke_only_ballots.
Qed.

(** X12. Whatever sequence of methods is invoked on an empty ledger, with
    whatever arguments, every value the World State then holds is the
    canonical encoding of a vote, stored under that vote's voter. *)
Theorem reachable_only_ballots (calls : list Call) :
  forall k text,
    foldl (fun σ call => invoke call σ) ∅ calls !! k = Some text ->
    exists c s,
      text = encode (Vote_object {| VoterID := k; CandidateID := c; Station := s |}).
Proof.
  intros k text Hk.
  pose proof (foldl_invoke_only_ballots calls ∅ only_ballots_empty) as H.
  destruct (proj1 (only_ballots_spec _) H k text Hk) as (c & s & ->).
  exists c, s. by rewrite encode_Vote.
Qed.

Lemma reachable_only_ballots_witness :
  exists c s,
    q "{'CandidateID':'cB','Station':'s2','VoterID':'v1'}"
    = encode (Vote_object {| VoterID := "v1"; CandidateID := c; Station := s |}).
Proof.
  apply (reachable_only_ballots
           [CallRegisterVote "v1" "cA" "s1"; CallRegisterVote "v1" "cC" "s3";
            CallUpdateVote "v1" "cB" "s2"; CallDeleteVote "v9"; CallInitLedger]
           "v1").
  vm_compute. reflexivity.
Defined.

(** ** Queries on a World State of ballots *)

Lemma ballots_of (l : list (string * string)) :
  forallb is_ballot l = true -> exists votes, l = ballot <$> votes.
Proof.
  induction l as [|[k text] l IH]; simpl; intros H.
  - by exists [].
  - apply andb_prop in H as [Hb Hl].
    apply is_ballot_inv in Hb as (c & s & ->).
    destruct (IH Hl) as (votes & ->).
    exists ({| VoterID := k; CandidateID := c; Station := s |} :: votes).
    csimpl. unfold ballot at 2. simpl. by rewrite encode_Vote.
Qed.

(** The loop never throws on ballots, plain candidate names or not. *)
Lemma tally_ballots_returns (votes : list Vote) :
  forall allResults, exists o, tally (ballot <$> votes) allResults = Returns o.
Proof.
  induction votes as [|[v c s] votes IH]; intros allResults; csimpl.
  - eauto.
  - unfold ballot at 1, Buffer_toString, Buffer_from. simpl.
    rewrite encode_Vote, JSON_parse_Vote_text. simpl. apply IH.
Qed.

(** X13. On a World State that holds only ballots, [GetVoteStatistics]
    returns: the TypeError that a stray value can cause does not occur,
    whatever the candidates are called. *)
Theorem GetVoteStatistics_returns_on_ballots (σ : gmap string string) :
  only_ballots σ = true ->
  exists text, GetVoteStatistics σ = (Returns text, σ).
Proof.
  intros H. destruct (ballots_of _ H) as (votes & Hvotes).
  destruct (tally_ballots_returns votes []) as (o & Ho).
  exists (stringify_results o).
  unfold GetVoteStatistics, mbind, Tx_bind.
  rewrite getStateByRange_full, Hvotes, Ho. reflexivity.
Qed.

Lemma GetVoteStatistics_returns_on_ballots_witness :
  exists text,
    GetVoteStatistics
      {[ "v1" := q "{'CandidateID':'toString','Station':'s1','VoterID':'v1'}";
         "v2" := q "{'CandidateID':'cA','Station':'s2','VoterID':'v2'}" ]}
    = (Returns text,
       {[ "v1" := q "{'CandidateID':'toString','Station':'s1','VoterID':'v1'}";
          "v2" := q "{'CandidateID':'cA','Station':'s2','VoterID':'v2'}" ]}).
Proof.
  apply GetVoteStatistics_returns_on_ballots.
  vm_compute. reflexivity.
Defined.

Lemma JSON_stringify_Vote_parsed (v c s : string) :
  JSON_stringify (Vote_parsed v c s) = Vote_text v c s.
Proof.
  cbv -[escape String.append]. rewrite !append_assoc. reflexivity.
Qed.

(** X14. On a World State that holds only ballots, [GetAllVotes] returns
    the stored texts themselves, in key order, separated by commas and
    enclosed in brackets: parsing a stored vote and writing it again gives
    back its text, and no raw placeholder appears. *)
Theorem GetAllVotes_on_ballots (σ : gmap string string) :
  only_ballots σ = true ->
  GetAllVotes σ
  = (Returns ("[" +:+ join "," ((entries σ).*2) +:+ "]"), σ).
Proof.
  intros H. unfold GetAllVotes, mbind, Tx_bind, mret, Tx_ret.
  rewrite getStateByRange_full, collect_map. simpl.
  assert (E : JSON_stringify <$> ((fun entry => parsed_or_raw entry.2) <$> entries σ)
              = (entries σ).*2).
  { unfold only_ballots in H. induction (entries σ) as [|[k text] l IH]; csimpl.
    - reflexivity.
    - simpl in H. apply andb_prop in H as [Hb Hl].
      apply is_ballot_inv in Hb as (c & s & ->).
      unfold parsed_or_raw at 1.
      rewrite JSON_parse_Vote_text, JSON_stringify_Vote_parsed.
      f_equal. by apply IH. }
  by rewrite E.
Qed.

Lemma GetAllVotes_on_ballots_witness :
  GetAllVotes
    {[ "v1" := q "{'CandidateID':'cB','Station':'s1','VoterID':'v1'}";
       "v2" := q "{'CandidateID':'cA','Station':'s2','VoterID':'v2'}" ]}
  = (Returns
       ("[" +:+ join ","
          ((entries
              {[ "v1" := q "{'CandidateID':'cB','Station':'s1','VoterID':'v1'}";
                 "v2" := q "{'CandidateID':'cA','Station':'s2','VoterID':'v2'}" ]}).*2)
        +:+ "]"),
     {[ "v1" := q "{'CandidateID':'cB','Station':'s1','VoterID':'v1'}";
        "v2" := q "{'CandidateID':'cA','Station':'s2','VoterID':'v2'}" ]}).
Proof.
  apply GetAllVotes_on_ballots.
  vm_compute. reflexivity.
Defined.

(** ** Counting on a World State of ballots *)








(** ** Entries that are not JSON *)

Lemma entries_StronglySorted (σ : gmap string string) :
  StronglySorted key_le (entries σ).
Proof. apply (StronglySorted_merge_sort key_le). Qed.

(** Deleting a key takes its entry out of the iteration and moves no
    other. *)
Lemma entries_delete (σ : gmap string string) (k text : string) :
  σ !! k = Some text ->
  exists before after,
    entries σ = before ++ (k, text) :: after
    /\ entries (delete k σ) = before ++ after.
Proof.
  intros Hk.
  assert (Hin : (k, text) ∈ entries σ) by by apply elem_of_entries.
  apply list_elem_of_split in Hin as (before & after & Hsplit).
  exists before, after. split; [exact Hsplit|].
  pose proof (entries_StronglySorted σ) as Hsorted. rewrite Hsplit in Hsorted.
  pose proof (entries_NoDup σ) as Hnd. rewrite Hsplit in Hnd.
  apply (StronglySorted_unique_strong key_le).
  - intros [k1 a1] [k2 a2] H1 H2 Hle Hge.
    pose proof (key_le_antisym _ _ Hle Hge) as E. simpl in E. subst k2.
    f_equal. apply (unique_keys_values (before ++ (k, text) :: after) k1).
    + exact Hnd.
    + rewrite <- Hsplit. apply elem_of_entries.
      apply elem_of_entries in H1. rewrite lookup_delete in H1.
      by destruct (decide (k = k1)).
    + apply elem_of_app in H2 as [H2|H2]; apply elem_of_app; [by left|].
      right. by right.
  - apply entries_StronglySorted.
  - apply StronglySorted_app in Hsorted as (Hcross & Hb & Ha).
    apply StronglySorted_cons in Ha as (Hhd & Ha).
    apply StronglySorted_app. split; [|by split].
    intros x1 x2 H1 H2. apply Hcross; [exact H1 | by right].
  - apply (Permutation_cons_inv (a := (k, text))).
    rewrite entries_Permutation, (map_to_list_delete σ k text Hk).
    rewrite <- entries_Permutation, Hsplit. by rewrite Permutation_middle.
Qed.

(** X16. A stored entry whose text [JSON.parse] rejects has no effect on
    the tally: [GetVoteStatistics] gives, on a World State that holds such
    an entry, what it gives on the state without it. *)
Theorem GetVoteStatistics_ignores_unparsable (σ : gmap string string)
    (k text : string) :
  σ !! k = Some text -> JSON_parse text = None ->
  (GetVoteStatistics σ).1 = (GetVoteStatistics (delete k σ)).1.
Proof.
  intros Hk Hfail.
  destruct (entries_delete σ k text Hk) as (before & after & Hσ & Hdel).
  unfold GetVoteStatistics, mbind, Tx_bind.
  rewrite !getStateByRange_full, Hσ, Hdel.
  rewrite (tally_skips_unparsable before after k text [] Hfail).
  by destruct (tally (before ++ after) []).
Qed.

Lemma GetVoteStatistics_ignores_unparsable_witness :
  (GetVoteStatistics
     {[ "v1" := q "{'CandidateID':'cA','Station':'s1','VoterID':'v1'}";
        "v2" := "not a vote" ]}).1
  = (GetVoteStatistics
       (delete "v2"
          {[ "v1" := q "{'CandidateID':'cA','Station':'s1','VoterID':'v1'}";
             "v2" := "not a vote" ]})).1.
Proof.
  apply (GetVoteStatistics_ignores_unparsable _ "v2" "not a vote").
  - reflexivity.
  - vm_compute. reflexivity.
Defined.

(** ** The encoding of a vote is lossless *)

(** X17. Different votes have different encodings: the text stored for a
    vote determines its voter, candidate and station, whatever characters
    they hold. *)
Theorem encode_Vote_injective (vote1 vote2 : Vote) :
  vote1 <> vote2 ->
  encode (Vote_object vote1) <> encode (Vote_object vote2).
Proof.
  destruct vote1 as [v1 c1 s1], vote2 as [v2 c2 s2]. intros Hne E.
  rewrite !encode_Vote in E. apply (f_equal JSON_parse) in E.
  rewrite !JSON_parse_Vote_text in E. injection E as -> -> ->. by apply Hne.
Qed.

Lemma encode_Vote_injective_witness :
  encode (Vote_object {| VoterID := "v1"; CandidateID := "a"; Station := "b,c" |})
  <> encode (Vote_object {| VoterID := "v1"; CandidateID := "a,b"; Station := "c" |}).
Proof.
  apply encode_Vote_injective. discriminate.
Defined.

(** ** How a write moves the tally *)















(** Two votes, yielded in either order. *)
Lemma tally_order_witness :
  own_property "cA" [("cB", VNumber 1); ("cA", VNumber 1)]
  = own_property "cA" [("cA", VNumber 1); ("cB", VNumber 1)].
Proof.
  refine (tally_order
            [ {| VoterID := "v1"; CandidateID := "cB"; Station := "s1" |};
              {| VoterID := "v2"; CandidateID := "cA"; Station := "s2" |} ]
            [ {| VoterID := "v2"; CandidateID := "cA"; Station := "s2" |};
              {| VoterID := "v1"; CandidateID := "cB"; Station := "s1" |} ]
            _ _ _ _ _ _ "cA").
  - repeat constructor.
  - apply perm_swap.
  - reflexivity.
  - reflexivity.
Defined.

(** ** The ledger the contract builds *)

(** X21. On a ledger that only this contract has written, starting from
    an empty one, [GetVoteStatistics] always returns: no sequence of
    invocations leads to a World State on which the tally throws. *)
Theorem GetVoteStatistics_returns_when_reachable (calls : list Call) :
  let σ := foldl (fun σ call => invoke call σ) ∅ calls in
  exists text, GetVoteStatistics σ = (Returns text, σ).
Proof.
  intros σ.
  pose proof (foldl_invoke_only_ballots calls ∅ only_ballots_empty) as H.
  fold σ in H. destruct (ballots_of _ H) as (votes & Hvotes).
  destruct (tally_ballots_returns votes []) as (o & Ho).
  exists (stringify_results o).
  unfold GetVoteStatistics, mbind, Tx_bind.
  rewrite getStateByRange_full, Hvotes, Ho. reflexivity.
Qed.

(** X22. The errors of the contract.  A method that throws has issued no
    write.  [RegisterVote] throws only the already-exists error, and only
    for a voter that exists; [ReadVote], [UpdateVote] and [DeleteVote]
    throw only the does-not-exist error, and only for a voter that does
    not exist; [GetVoteStatistics] throws only a TypeError; [InitLedger],
    [VoteExists], [GetAllVotes] and [DeleteAllVotes] never throw. *)
Theorem error_table (call : Call) (σ σ' : gmap string string) (e : JsError) :
  perform call σ = (Throws e, σ') ->
  σ' = σ
  /\ match call with
     | CallRegisterVote v _ _ => e = AlreadyExists v /\ holds σ v = true
     | CallReadVote v | CallUpdateVote v _ _ | CallDeleteVote v =>
         e = NotFound v /\ holds σ v = false
     | CallGetVoteStatistics => e = TypeError
     | CallInitLedger | CallVoteExists _ | CallGetAllVotes
     | CallDeleteAllVotes => False
     end.
Proof.
  destruct call as [ |v c s|v|v c s|v|v| | | ]; unfold perform, mbind, Tx_bind.
  - rewrite InitLedger_eq. discriminate.
  - rewrite RegisterVote_eq. destruct (holds σ v); [|discriminate].
    intros [= <- <-]. auto.
  - rewrite ReadVote_eq. destruct (holds σ v); [discriminate|].
    intros [= <- <-]. auto.
  - rewrite UpdateVote_eq. destruct (holds σ v); [discriminate|].
    intros [= <- <-]. auto.
  - rewrite DeleteVote_eq. destruct (holds σ v); [discriminate|].
    intros [= <- <-]. auto.
  - rewrite VoteExists_eq. discriminate.
  - unfold GetVoteStatistics, mbind, Tx_bind. rewrite getStateByRange_full.
    destruct (tally (entries σ) []) as [o|e'] eqn:Ht; [discriminate|].
    unfold throw. intros [= <- <-]. split; [reflexivity|].
    clear -Ht. revert Ht. generalize (@nil (string * value)).
    induction (entries σ) as [|[k text] l IH]; intros acc; simpl; [discriminate|].
    unfold Buffer_toString, Buffer_from.
    destruct (JSON_parse text) as [vote|]; [|apply IH].
    destruct (get_CandidateID vote) as [candidate|e1] eqn:Eg.
    + destruct (ToPropertyKey candidate) as [key|e2] eqn:Ek; [apply IH|].
      intros [= <-]. clear -Ek. destruct candidate as [j|]; [|discriminate].
      revert e2 Ek. simpl.
      induction j as [ | b | n | s | l IHl | o IHo ] using json_ind;
        intros e2; simpl; try discriminate.
      * induction l as [|x l IHl']; simpl; [discriminate|].
        apply Forall_cons in IHl as [Hx Hl].
        destruct (match x with JNull => Returns EmptyString | _ => ToString x end)
          as [sx|ex] eqn:Ex.
        -- specialize (IHl' Hl). revert IHl'. simpl.
           destruct ((fix items (l0 : list json) : outcome (list string) := _) l)
             as [ss|es]; [discriminate|].
           intros IHl'. intros [= <-]. by apply IHl'.
        -- intros [= <-]. destruct x; try discriminate Ex; by apply Hx.
      * destruct (own_property "toString" o); [|discriminate]. by intros [= <-].
    + intros [= <-]. destruct vote; simpl in Eg; congruence.
  - discriminate.
  - rewrite DeleteAllVotes_empties. discriminate.
Qed.

Lemma error_table_witness :
  perform (CallRegisterVote "v1" "cA" "s1") {[ "v1" := "ballot" ]}
  = (Throws (AlreadyExists "v1"), {[ "v1" := "ballot" ]})
  /\ ({[ "v1" := "ballot" ]} : gmap string string) = {[ "v1" := "ballot" ]}
  /\ AlreadyExists "v1" = AlreadyExists "v1"
  /\ holds {[ "v1" := "ballot" ]} "v1" = true.
Proof.
  split; [reflexivity|].
  apply (error_table (CallRegisterVote "v1" "cA" "s1") {[ "v1" := "ballot" ]}
           {[ "v1" := "ballot" ]} (AlreadyExists "v1")).
  reflexivity.
Defined.
